(** * Reson8 audio engine: a shallow embedding of [utils/audioEngine.ts]

    The development follows the class [AudioEngine]:
    - [JS]        the ECMAScript number primitives the engine calls
                  ([Math.min], [Math.max], [x|0], [DataView] stores);
    - [Wave]      [bufferToWave], the writer of the exported container;
    - [Engine]    the engine object, the audio buffers and source nodes it
                  shares with the host, and its operations [loadFile],
                  [play], [pause], [stop], [updateEffects], [exportAudio].

    Sample values are IEEE binary64 numbers (Rocq's primitive floats), which
    is what an ECMAScript number is.  Times and effect parameters are exact
    rationals: the properties about them are stated up to clock resolution. *)

From Stdlib Require Import ZArith QArith Lia Lqa Bool String.
From Stdlib Require Import PrimFloat FloatOps SpecFloat FloatAxioms.
From stdpp Require Import base option list.

Set Default Proof Using "Type".

(* ===================================================================== *)
(** ** Exceptions, results and the monad of the embedding                 *)
(* ===================================================================== *)

(** What a call can throw.  [Error msg] is [new Error(msg)]; the others are
    the exceptions of the host objects, named after their class. *)
Inductive Exn : Type :=
  | Error (msg : string)
  | RangeError
  | TypeError
  | InvalidStateError
  | IndexSizeError
  | EncodingError.

Inductive result (A : Type) : Type :=
  | Ok (a : A)
  | Throw (e : Exn).
Arguments Ok {A} a.
Arguments Throw {A} e.

(** A computation over a mutable state [S] that returns or throws.  What it
    assigned before it throws stays assigned. *)
Definition M (S A : Type) : Type := S -> result A * S.

Definition ret {S A} (a : A) : M S A := fun s => (Ok a, s).
Definition throw {S A} (e : Exn) : M S A := fun s => (Throw e, s).
Definition bind {S A B} (m : M S A) (k : A -> M S B) : M S B :=
  fun s => match m s with
           | (Ok a, s') => k a s'
           | (Throw e, s') => (Throw e, s')
           end.
Definition gets {S A} (f : S -> A) : M S A := fun s => (Ok (f s), s).
Definition reads {S A} (f : S -> result A) : M S A := fun s => (f s, s).
Definition modify {S} (f : S -> S) : M S unit := fun s => (Ok tt, f s).

(** [try { m } catch (e) { }] *)
Definition try_ignore {S} (m : M S unit) : M S unit :=
  fun s => match m s with
           | (Ok _, s') => (Ok tt, s')
           | (Throw _, s') => (Ok tt, s')
           end.

(** [if (c) m] *)
Definition when {S} (c : bool) (m : M S unit) : M S unit :=
  if c then m else ret tt.

Declare Scope js_scope.
Delimit Scope js_scope with js.
Notation "x <- m ;; k" := (bind m (fun x => k))
  (at level 100, m at level 99, right associativity) : js_scope.
Notation "m ;; k" := (bind m (fun _ => k))
  (at level 100, right associativity) : js_scope.

(** [for (i = i0; i < i0 + n; i++) body(i)] *)
Fixpoint for_range {St} (i0 n : nat) (body : nat -> M St unit) : M St unit :=
  match n with
  | O => ret tt
  | S n' => (body i0 ;; for_range (S i0) n' body)%js
  end.

(* ===================================================================== *)
(** ** ECMAScript number primitives                                       *)
(* ===================================================================== *)

Module JS.

(** [Math.min(a, b)]: NaN if either is NaN, and -0 is below +0. *)
Definition Math_min (a b : float) : float :=
  if is_nan a || is_nan b then nan
  else if (a <? b)%float then a
  else if (b <? a)%float then b
  else if get_sign a then a else b.

(** [Math.max(a, b)]: NaN if either is NaN, and +0 is above -0. *)
Definition Math_max (a b : float) : float :=
  if is_nan a || is_nan b then nan
  else if (b <? a)%float then a
  else if (a <? b)%float then b
  else if get_sign a then b else a.

(** The integer part of a number, rounding toward zero; 0 for NaN and the
    infinities (the first steps of ToInt32). *)
Definition truncate (x : float) : Z :=
  match Prim2SF x with
  | S754_finite s m e =>
      let v := (if (0 <=? e) then Z.pos m * 2 ^ e else Z.pos m / 2 ^ (- e))%Z in
      if s then (- v)%Z else v
  | _ => 0%Z
  end.

(** ToInt32 on an integer: reduce modulo 2^32 into [-2^31, 2^31). *)
Definition wrapInt32 (n : Z) : Z :=
  let m := (n mod 2 ^ 32)%Z in
  if (2 ^ 31 <=? m)%Z then (m - 2 ^ 32)%Z else m.

(** [x | 0]. *)
Definition or0 (x : float) : Z := wrapInt32 (truncate x).

(** The conversion of a number to a Web IDL [unsigned long]: 0 for NaN and
    the infinities, else the integer part, modulo 2^32. *)
Definition toUnsignedLong (x : float) : Z := (truncate x mod 2 ^ 32)%Z.

(** The whole number [z] as a Number: the binary64 value nearest to it,
    which is [z] itself below 2^53. *)
Definition ofZ (z : Z) : float := SF2Prim (binary_normalize prec emax z 0 false).

(** The [n] low bytes of [v], least significant first. *)
Definition le_bytes (n : nat) (v : Z) : list Z :=
  (fun k => Z.land (Z.shiftr v (8 * Z.of_nat k)) 255) <$> seq 0 n.

(** The number whose little-endian bytes are [bs]. *)
Fixpoint of_le_bytes (bs : list Z) : Z :=
  match bs with
  | [] => 0
  | b :: bs' => b + 256 * of_le_bytes bs'
  end%Z.

(** An [ArrayBuffer] is its bytes; [new ArrayBuffer(n)] is zero-filled. *)
Definition ArrayBuffer := list Z.
Definition new_ArrayBuffer (n : nat) : ArrayBuffer := replicate n 0%Z.

(** A [DataView] store of [n] bytes at [byteOffset], little-endian
    ([littleEndian = true]); out of bounds is a [RangeError]. *)
Definition DataView_set (n : nat) (byteOffset : nat) (value : Z)
    (buf : ArrayBuffer) : result ArrayBuffer :=
  if (byteOffset + n <=? length buf)%nat
  then Ok (list_inserts byteOffset (le_bytes n value) buf)
  else Throw RangeError.

Definition DataView_setUint16 := DataView_set 2.
Definition DataView_setUint32 := DataView_set 4.
Definition DataView_setInt16 := DataView_set 2.

(** A little-endian load of [n] bytes at [byteOffset]. *)
Definition DataView_getUint (n : nat) (byteOffset : nat)
    (buf : ArrayBuffer) : option Z :=
  if (byteOffset + n <=? length buf)%nat
  then Some (of_le_bytes (take n (drop byteOffset buf)))
  else None.

End JS.

(* ===================================================================== *)
(** ** Audio buffers and effect parameters                                *)
(* ===================================================================== *)

(** An [AudioBuffer]: its sample rate in Hz (a whole number), its length in
    sample frames and one [Float32Array] per channel.  The samples are kept
    as the numbers a read of the typed array yields. *)
Record AudioBuffer : Type := mkAudioBuffer {
  ab_sampleRate : Z;
  ab_length : nat;
  ab_channels : list (list float)
}.

Definition numberOfChannels (b : AudioBuffer) : nat := length (ab_channels b).

(** [buffer.duration], in seconds: the host divides the length by the
    sample rate, in binary64. *)
Definition duration (b : AudioBuffer) : float :=
  (JS.ofZ (Z.of_nat (ab_length b)) / JS.ofZ (ab_sampleRate b))%float.

(** [interface AudioEffects] of [types.ts]. *)
Record AudioEffects : Type := mkAudioEffects {
  pitch : Q;
  echoDelay : Q;
  echoFeedback : Q;
  isReversed : bool
}.

(* ===================================================================== *)
(** ** bufferToWave                                                       *)
(* ===================================================================== *)

Module Wave.
Import JS.
Local Open Scope js_scope.

(** The locals of [bufferToWave] that its body and its two inner
    functions [setUint16] and [setUint32] assign. *)
Record Locals : Type := mkLocals {
  view : ArrayBuffer;
  offset : nat;
  pos : nat
}.

Definition W (A : Type) : Type := M Locals A.

(** [function setUint16(data) { view.setUint16(pos, data, true); pos += 2; }] *)
Definition setUint16 (data : Z) : W unit := fun st =>
  match DataView_setUint16 (pos st) data (view st) with
  | Ok v => (Ok tt, {| view := v; offset := offset st; pos := pos st + 2 |})
  | Throw e => (Throw e, st)
  end.

(** [function setUint32(data) { view.setUint32(pos, data, true); pos += 4; }] *)
Definition setUint32 (data : Z) : W unit := fun st =>
  match DataView_setUint32 (pos st) data (view st) with
  | Ok v => (Ok tt, {| view := v; offset := offset st; pos := pos st + 4 |})
  | Throw e => (Throw e, st)
  end.

(** The two assignments to [sample] in the inner loop: clamp, then scale
    and convert with [|0]. *)
Definition clamp (x : float) : float := Math_max (-1)%float (Math_min 1%float x).

Definition scale (sample : float) : Z :=
  or0 (if (0.5 + sample <? 0)%float
       then (sample * 32768)%float
       else (sample * 32767)%float).

Definition convertSample (x : float) : Z := scale (clamp x).

(** [channels[i][pos]]: a missing channel is a [TypeError]; an index past
    the end of the typed array reads [undefined], which [Math.min] turns
    into NaN. *)
Definition readSample (channels : list (list float)) (i p : nat) : result float :=
  match channels !! i with
  | None => Throw TypeError
  | Some ch => Ok (default nan (ch !! p))
  end.

(** The body of [for(i = 0; i < numOfChan; i++)] for one [i]. *)
Definition writeChannel (channels : list (list float)) (i : nat) : W unit := fun st =>
  match readSample channels i (pos st) with
  | Throw e => (Throw e, st)
  | Ok x =>
      match DataView_setInt16 (44 + offset st) (convertSample x) (view st) with
      | Ok v => (Ok tt, {| view := v; offset := offset st + 2; pos := pos st |})
      | Throw e => (Throw e, st)
      end
  end.

(** [pos++] *)
Definition incr_pos : W unit :=
  modify (fun st => {| view := view st; offset := offset st; pos := pos st + 1 |}).

(** [while(pos < len) { body; pos++ }].  Every round adds one to [pos], so
    the loop makes [len - pos] rounds: [rounds] counts them. *)
Fixpoint while_pos_lt (len : nat) (rounds : nat) (body : W unit) : W unit :=
  match rounds with
  | O => ret tt
  | S r => fun st =>
      if (pos st <? len)%nat
      then (body ;; incr_pos ;; while_pos_lt len r body) st
      else (Ok tt, st)
  end.

Record Blob : Type := mkBlob {
  blob_bytes : list Z;
  blob_type : string
}.

(** The statements of [bufferToWave] after its declarations.  [channels]
    is the array that the first loop fills with [abuffer.getChannelData(i)]
    for every channel [i]. *)
Definition writeWave (abuffer : AudioBuffer) (len : nat) (length : nat) : W unit :=
  let numOfChan := numberOfChannels abuffer in
  setUint32 0x46464952 ;;
  setUint32 (Z.of_nat length - 8) ;;
  setUint32 0x45564157 ;;
  setUint32 0x20746d66 ;;
  setUint32 16 ;;
  setUint16 1 ;;
  setUint16 (Z.of_nat numOfChan) ;;
  setUint32 (ab_sampleRate abuffer) ;;
  setUint32 (ab_sampleRate abuffer * 2 * Z.of_nat numOfChan) ;;
  setUint16 (Z.of_nat numOfChan * 2) ;;
  setUint16 16 ;;
  setUint32 0x61746164 ;;
  p <- gets pos ;;
  setUint32 (Z.of_nat length - Z.of_nat p - 4) ;;
  let channels := ab_channels abuffer in
  p <- gets pos ;;
  while_pos_lt len (len - p)
    (for_range 0 numOfChan (writeChannel channels)).

Definition bufferToWave (abuffer : AudioBuffer) (len : nat) : result Blob :=
  let numOfChan := numberOfChannels abuffer in
  let length := len * numOfChan * 2 + 44 in
  let buffer := new_ArrayBuffer length in
  match writeWave abuffer len length {| view := buffer; offset := 0; pos := 0 |} with
  | (Ok _, st) => Ok {| blob_bytes := view st; blob_type := "audio/wav" |}
  | (Throw e, _) => Throw e
  end.

(** The conversion as section 4.2 of the specification words it: clamp to
    [-1, 1], multiply a negative value by 32768 and a non-negative one by
    32767. *)
Definition spec_convertSample (x : float) : Z :=
  let s := clamp x in
  or0 (if (s <? 0)%float then (s * 32768)%float else (s * 32767)%float).

(** The header fields and the payload of an encoded container. *)
Definition riffLength (bytes : list Z) : option Z := DataView_getUint 4 4 bytes.
Definition channelCount (bytes : list Z) : option Z := DataView_getUint 2 22 bytes.
Definition headerSampleRate (bytes : list Z) : option Z := DataView_getUint 4 24 bytes.
Definition byteRate (bytes : list Z) : option Z := DataView_getUint 4 28 bytes.
Definition blockAlign (bytes : list Z) : option Z := DataView_getUint 2 32 bytes.
Definition bitsPerSample (bytes : list Z) : option Z := DataView_getUint 2 34 bytes.
Definition dataLength (bytes : list Z) : option Z := DataView_getUint 4 40 bytes.
Definition payload (bytes : list Z) : list Z := drop 44 bytes.

(** The 16-bit little-endian words of a payload. *)
Fixpoint words16 (bytes : list Z) : list Z :=
  match bytes with
  | lo :: hi :: rest => (lo + 256 * hi)%Z :: words16 rest
  | _ => []
  end.

End Wave.

(* ===================================================================== *)
(** ** The engine and the host objects it drives                          *)
(* ===================================================================== *)

Module Engine.
Import JS.
Local Open Scope js_scope.

(** An [AudioParam]: its [value], and the arguments of the last
    [setTargetAtTime(target, startTime, timeConstant)]. *)
Record AudioParam : Type := mkParam {
  value : Q;
  targetAt : option (Q * Q * Q)
}.

(** An [AudioBufferSourceNode].  [sn_buffer] is a reference to an
    [AudioBuffer]; [sn_started] holds the arguments of [start(when, offset)];
    [sn_onended] is the handler [play] assigns, which is the same closure
    every time but for the caller's [onEnded] it calls; [sn_ended] says
    that the host has dispatched the node's [ended] event. *)
Record SourceNode : Type := mkSource {
  sn_buffer : option nat;
  sn_detune : AudioParam;
  sn_started : option (Q * Q);
  sn_stopped : bool;
  sn_onended : option nat;
  sn_ended : bool
}.

Inductive NodeRef : Type :=
  | NSource (n : nat)
  | NGain
  | NAnalyser
  | NDelay
  | NFeedback
  | NDestination.

#[global] Instance NodeRef_eq_dec : EqDecision NodeRef.
Proof. solve_decision. Defined.

(** The engine object together with the host objects it reaches.  Audio
    buffers and source nodes are objects with identity: they live in two
    stores and are named by their index.  The times of the audio clock are
    rationals, and so is their difference in [play] and [pause], which the
    code rounds to a Number: what is stated of a time below is the
    difference as the code writes it, or an order between times, which
    rounding keeps. *)
Record World : Type := mkWorld {
  (* the fields of [AudioEngine] *)
  sourceNode : option nat;
  currentBuffer : option nat;
  startTime : Q;
  pauseTime : Q;
  isPlaying : bool;
  (* the audio context and the nodes the constructor creates *)
  ctx_suspended : bool;
  currentTime : Q;
  delayTime : AudioParam;
  feedbackGain : AudioParam;
  (* the objects the engine and the host share, by reference *)
  buffers : list AudioBuffer;
  sources : list SourceNode;
  connections : list (NodeRef * NodeRef);
  (* the [onEnded] handlers of the caller invoked so far, last first *)
  called : list nat
}.

Definition set_sourceNode (x : option nat) (w : World) : World :=
  {| sourceNode := x; currentBuffer := currentBuffer w;
     startTime := startTime w; pauseTime := pauseTime w;
     isPlaying := isPlaying w; ctx_suspended := ctx_suspended w;
     currentTime := currentTime w; delayTime := delayTime w;
     feedbackGain := feedbackGain w; buffers := buffers w;
     sources := sources w; connections := connections w; called := called w |}.
Definition set_currentBuffer (x : option nat) (w : World) : World :=
  {| sourceNode := sourceNode w; currentBuffer := x;
     startTime := startTime w; pauseTime := pauseTime w;
     isPlaying := isPlaying w; ctx_suspended := ctx_suspended w;
     currentTime := currentTime w; delayTime := delayTime w;
     feedbackGain := feedbackGain w; buffers := buffers w;
     sources := sources w; connections := connections w; called := called w |}.
Definition set_startTime (x : Q) (w : World) : World :=
  {| sourceNode := sourceNode w; currentBuffer := currentBuffer w;
     startTime := x; pauseTime := pauseTime w; isPlaying := isPlaying w;
     ctx_suspended := ctx_suspended w; currentTime := currentTime w;
     delayTime := delayTime w; feedbackGain := feedbackGain w;
     buffers := buffers w; sources := sources w;
     connections := connections w; called := called w |}.
Definition set_pauseTime (x : Q) (w : World) : World :=
  {| sourceNode := sourceNode w; currentBuffer := currentBuffer w;
     startTime := startTime w; pauseTime := x; isPlaying := isPlaying w;
     ctx_suspended := ctx_suspended w; currentTime := currentTime w;
     delayTime := delayTime w; feedbackGain := feedbackGain w;
     buffers := buffers w; sources := sources w;
     connections := connections w; called := called w |}.
Definition set_isPlaying (x : bool) (w : World) : World :=
  {| sourceNode := sourceNode w; currentBuffer := currentBuffer w;
     startTime := startTime w; pauseTime := pauseTime w; isPlaying := x;
     ctx_suspended := ctx_suspended w; currentTime := currentTime w;
     delayTime := delayTime w; feedbackGain := feedbackGain w;
     buffers := buffers w; sources := sources w;
     connections := connections w; called := called w |}.
Definition set_ctx_suspended (x : bool) (w : World) : World :=
  {| sourceNode := sourceNode w; currentBuffer := currentBuffer w;
     startTime := startTime w; pauseTime := pauseTime w;
     isPlaying := isPlaying w; ctx_suspended := x;
     currentTime := currentTime w; delayTime := delayTime w;
     feedbackGain := feedbackGain w; buffers := buffers w;
     sources := sources w; connections := connections w; called := called w |}.
Definition set_currentTime (x : Q) (w : World) : World :=
  {| sourceNode := sourceNode w; currentBuffer := currentBuffer w;
     startTime := startTime w; pauseTime := pauseTime w;
     isPlaying := isPlaying w; ctx_suspended := ctx_suspended w;
     currentTime := x; delayTime := delayTime w;
     feedbackGain := feedbackGain w; buffers := buffers w;
     sources := sources w; connections := connections w; called := called w |}.
Definition set_delayTime (x : AudioParam) (w : World) : World :=
  {| sourceNode := sourceNode w; currentBuffer := currentBuffer w;
     startTime := startTime w; pauseTime := pauseTime w;
     isPlaying := isPlaying w; ctx_suspended := ctx_suspended w;
     currentTime := currentTime w; delayTime := x;
     feedbackGain := feedbackGain w; buffers := buffers w;
     sources := sources w; connections := connections w; called := called w |}.
Definition set_feedbackGain (x : AudioParam) (w : World) : World :=
  {| sourceNode := sourceNode w; currentBuffer := currentBuffer w;
     startTime := startTime w; pauseTime := pauseTime w;
     isPlaying := isPlaying w; ctx_suspended := ctx_suspended w;
     currentTime := currentTime w; delayTime := delayTime w;
     feedbackGain := x; buffers := buffers w; sources := sources w;
     connections := connections w; called := called w |}.
Definition set_buffers (x : list AudioBuffer) (w : World) : World :=
  {| sourceNode := sourceNode w; currentBuffer := currentBuffer w;
     startTime := startTime w; pauseTime := pauseTime w;
     isPlaying := isPlaying w; ctx_suspended := ctx_suspended w;
     currentTime := currentTime w; delayTime := delayTime w;
     feedbackGain := feedbackGain w; buffers := x; sources := sources w;
     connections := connections w; called := called w |}.
Definition set_sources (x : list SourceNode) (w : World) : World :=
  {| sourceNode := sourceNode w; currentBuffer := currentBuffer w;
     startTime := startTime w; pauseTime := pauseTime w;
     isPlaying := isPlaying w; ctx_suspended := ctx_suspended w;
     currentTime := currentTime w; delayTime := delayTime w;
     feedbackGain := feedbackGain w; buffers := buffers w; sources := x;
     connections := connections w; called := called w |}.
Definition set_connections (x : list (NodeRef * NodeRef)) (w : World) : World :=
  {| sourceNode := sourceNode w; currentBuffer := currentBuffer w;
     startTime := startTime w; pauseTime := pauseTime w;
     isPlaying := isPlaying w; ctx_suspended := ctx_suspended w;
     currentTime := currentTime w; delayTime := delayTime w;
     feedbackGain := feedbackGain w; buffers := buffers w;
     sources := sources w; connections := x; called := called w |}.
Definition set_called (x : list nat) (w : World) : World :=
  {| sourceNode := sourceNode w; currentBuffer := currentBuffer w;
     startTime := startTime w; pauseTime := pauseTime w;
     isPlaying := isPlaying w; ctx_suspended := ctx_suspended w;
     currentTime := currentTime w; delayTime := delayTime w;
     feedbackGain := feedbackGain w; buffers := buffers w;
     sources := sources w; connections := connections w; called := x |}.

(** [new AudioEngine()].  Whether the context starts suspended is the
    host's autoplay policy. *)
Definition constructor (suspended : bool) : World :=
  {| sourceNode := None; currentBuffer := None;
     startTime := 0; pauseTime := 0; isPlaying := false;
     ctx_suspended := suspended; currentTime := 0;
     delayTime := mkParam 0 None; feedbackGain := mkParam 1 None;
     buffers := []; sources := []; connections := []; called := [] |}.

(** *** Host objects *)

Definition lift {A} (r : result A) : M World A := reads (fun _ => r).

(** Following a reference.  A reference always names an object; in the
    model a dangling index throws like a null reference would. *)
Definition deref {A} (o : option A) : result A :=
  match o with
  | Some x => Ok x
  | None => Throw TypeError
  end.

Definition getBuffer (a : nat) : M World AudioBuffer :=
  reads (fun w => deref (buffers w !! a)).

Definition getSource (n : nat) : M World SourceNode :=
  reads (fun w => deref (sources w !! n)).

(** A new object in a store; its reference is the next free index. *)
Definition allocBuffer (b : AudioBuffer) : M World nat := fun w =>
  (Ok (length (buffers w)), set_buffers (buffers w ++ [b]) w).

Definition allocSource (nd : SourceNode) : M World nat := fun w =>
  (Ok (length (sources w)), set_sources (sources w ++ [nd]) w).

Definition updBuffer (a : nat) (f : AudioBuffer -> AudioBuffer) : M World unit :=
  modify (fun w => set_buffers (alter f a (buffers w)) w).

Definition updSource (n : nat) (f : SourceNode -> SourceNode) : M World unit :=
  modify (fun w => set_sources (alter f n (sources w)) w).

Definition set_channels (chs : list (list float)) (b : AudioBuffer) : AudioBuffer :=
  {| ab_sampleRate := ab_sampleRate b; ab_length := ab_length b; ab_channels := chs |}.

(** [audioContext.createBuffer(numberOfChannels, length, sampleRate)]: a
    new buffer of silence. *)
Definition createBuffer (nch len : nat) (rate : Z) : M World nat :=
  allocBuffer (mkAudioBuffer rate len (replicate nch (replicate len 0%float))).

(** [buffer.getChannelData(i)] *)
Definition getChannelData (a i : nat) : M World (list float) :=
  b <- getBuffer a ;;
  match ab_channels b !! i with
  | Some ch => ret ch
  | None => throw IndexSizeError
  end.

(** What [copyToChannel] leaves in a channel [dest] given [source]: the
    samples of [source] as far as [dest] reaches, then the rest of [dest]. *)
Definition overwrite (source dest : list float) : list float :=
  take (length dest) source ++ drop (length source) dest.

(** [buffer.copyToChannel(source, channelNumber)] *)
Definition copyToChannel (a : nat) (source : list float) (channelNumber : nat)
    : M World unit :=
  b <- getBuffer a ;;
  match ab_channels b !! channelNumber with
  | Some _ =>
      updBuffer a (fun b => set_channels (alter (overwrite source) channelNumber (ab_channels b)) b)
  | None => throw IndexSizeError
  end.

(** [Array.prototype.reverse.call(buffer.getChannelData(i))]: the typed
    array is the buffer's own storage, reversed in place. *)
Definition reverseChannel (a i : nat) : M World unit :=
  _ <- getChannelData a i ;;
  updBuffer a (fun b => set_channels (alter (@rev float) i (ab_channels b)) b).

(** [for (let i = 0; i < reversedBuffer.numberOfChannels; i++)
       Array.prototype.reverse.call(reversedBuffer.getChannelData(i));]
    the loop [createSource] and [exportAudio] both run. *)
Definition reverseChannels (reversedBuffer : nat) : M World unit :=
  b <- getBuffer reversedBuffer ;;
  for_range 0 (numberOfChannels b) (reverseChannel reversedBuffer).

(** [audioContext.createBufferSource()] *)
Definition createBufferSource : M World nat :=
  allocSource (mkSource None (mkParam 0 None) None false None false).

Definition set_sn_buffer (a : nat) (nd : SourceNode) : SourceNode :=
  mkSource (Some a) (sn_detune nd) (sn_started nd) (sn_stopped nd) (sn_onended nd) (sn_ended nd).
Definition set_sn_detune (p : AudioParam) (nd : SourceNode) : SourceNode :=
  mkSource (sn_buffer nd) p (sn_started nd) (sn_stopped nd) (sn_onended nd) (sn_ended nd).
Definition set_sn_started (when_offset : Q * Q) (nd : SourceNode) : SourceNode :=
  mkSource (sn_buffer nd) (sn_detune nd) (Some when_offset) (sn_stopped nd) (sn_onended nd) (sn_ended nd).
Definition set_sn_stopped (nd : SourceNode) : SourceNode :=
  mkSource (sn_buffer nd) (sn_detune nd) (sn_started nd) true (sn_onended nd) (sn_ended nd).
Definition set_sn_onended (onEnded : nat) (nd : SourceNode) : SourceNode :=
  mkSource (sn_buffer nd) (sn_detune nd) (sn_started nd) (sn_stopped nd) (Some onEnded) (sn_ended nd).
Definition set_sn_ended (nd : SourceNode) : SourceNode :=
  mkSource (sn_buffer nd) (sn_detune nd) (sn_started nd) (sn_stopped nd) (sn_onended nd) true.

(** [source.start(when, offset)]: a node starts once, and not at a
    negative offset. *)
Definition source_start (n : nat) (when_ offset : Q) : M World unit :=
  nd <- getSource n ;;
  match sn_started nd with
  | Some _ => throw InvalidStateError
  | None =>
      if Qle_bool 0 offset
      then updSource n (set_sn_started (when_, offset))
      else throw RangeError
  end.

(** [source.stop()]: an error on a node that was never started; halting
    a node again is allowed. *)
Definition source_stop (n : nat) : M World unit :=
  nd <- getSource n ;;
  match sn_started nd with
  | None => throw InvalidStateError
  | Some _ => updSource n set_sn_stopped
  end.

(** [param.value = x] and [param.setTargetAtTime(target, startTime, timeConstant)] *)
Definition set_value (x : Q) (p : AudioParam) : AudioParam := mkParam x (targetAt p).
Definition setTargetAtTime (target startTime timeConstant : Q) (p : AudioParam)
    : AudioParam :=
  mkParam (value p) (Some (target, startTime, timeConstant)).

(** [a.connect(b)]; connecting a pair again changes nothing. *)
Definition connected (a b : NodeRef) (w : World) : World :=
  if bool_decide ((a, b) ∈ connections w) then w
  else set_connections (connections w ++ [(a, b)]) w.

Definition connect (a b : NodeRef) : M World unit := modify (connected a b).

(** *** The methods of [AudioEngine] *)

(** [async loadFile(file)].  [decoded] is what the host's
    [decodeAudioData] makes of the file: a buffer, or a rejection. *)
Definition loadFile (decoded : result AudioBuffer) : M World nat :=
  audioBuffer <- lift decoded ;;
  a <- allocBuffer audioBuffer ;;
  modify (set_currentBuffer (Some a)) ;;
  ret a.

Definition cloneBuffer (buffer : nat) : M World nat :=
  b <- getBuffer buffer ;;
  newBuffer <- createBuffer (numberOfChannels b) (ab_length b) (ab_sampleRate b) ;;
  for_range 0 (numberOfChannels b) (fun i =>
    ch <- getChannelData buffer i ;;
    copyToChannel newBuffer ch i) ;;
  ret newBuffer.

Definition createSource (effects : AudioEffects) : M World nat :=
  cur <- gets currentBuffer ;;
  match cur with
  | None => throw (Error "No buffer loaded")
  | Some currentBuffer =>
      source <- createBufferSource ;;
      (if isReversed effects
       then
         reversedBuffer <- cloneBuffer currentBuffer ;;
         reverseChannels reversedBuffer ;;
         updSource source (set_sn_buffer reversedBuffer)
       else
         updSource source (set_sn_buffer currentBuffer)) ;;
      updSource source (fun nd => set_sn_detune (set_value (pitch effects) (sn_detune nd)) nd) ;;
      ret source
  end.

Definition stop : M World unit :=
  sn <- gets sourceNode ;;
  match sn with
  | Some n => try_ignore (source_stop n)
  | None => ret tt
  end ;;
  modify (set_pauseTime 0) ;;
  modify (set_isPlaying false).

(** The handler [play] assigns to [sourceNode.onended]. *)
Definition onended_handler (onEnded : nat) : M World unit :=
  modify (set_isPlaying false) ;;
  modify (set_pauseTime 0) ;;
  modify (fun w => set_called (onEnded :: called w) w).

Definition play (effects : AudioEffects) (onEnded : nat) : M World unit :=
  playing <- gets isPlaying ;;
  when playing stop ;;
  cur <- gets currentBuffer ;;
  match cur with
  | None => ret tt
  | Some _ =>
      suspended <- gets ctx_suspended ;;
      when suspended (modify (set_ctx_suspended false)) ;;
      source <- createSource effects ;;
      modify (set_sourceNode (Some source)) ;;
      modify (fun w => set_delayTime (set_value (echoDelay effects) (delayTime w)) w) ;;
      modify (fun w => set_feedbackGain (set_value (echoFeedback effects) (feedbackGain w)) w) ;;
      connect (NSource source) NGain ;;
      connect (NSource source) NDelay ;;
      connect NDelay NFeedback ;;
      connect NFeedback NDelay ;;
      connect NDelay NGain ;;
      connect NGain NAnalyser ;;
      connect NAnalyser NDestination ;;
      modify (fun w => set_startTime (currentTime w - pauseTime w) w) ;;
      offset <- gets pauseTime ;;
      source_start source 0 offset ;;
      modify (set_isPlaying true) ;;
      updSource source (set_sn_onended onEnded)
  end.

Definition pause : M World unit :=
  sn <- gets sourceNode ;;
  playing <- gets isPlaying ;;
  match sn with
  | Some n =>
      when playing (
        source_stop n ;;
        modify (fun w => set_pauseTime (currentTime w - startTime w) w) ;;
        modify (set_isPlaying false))
  | None => ret tt
  end.

Definition updateEffects (effects : AudioEffects) : M World unit :=
  modify (fun w =>
    set_delayTime (setTargetAtTime (echoDelay effects) (currentTime w) (1 # 10) (delayTime w)) w) ;;
  modify (fun w =>
    set_feedbackGain (setTargetAtTime (echoFeedback effects) (currentTime w) (1 # 10) (feedbackGain w)) w) ;;
  sn <- gets sourceNode ;;
  playing <- gets isPlaying ;;
  match sn with
  | Some n =>
      when playing (
        now <- gets currentTime ;;
        updSource n (fun nd =>
          set_sn_detune (setTargetAtTime (pitch effects) now (1 # 10) (sn_detune nd)) nd))
  | None => ret tt
  end.

(** [this.currentBuffer.duration + (effects.echoFeedback > 0 ? 3 : 0)],
    a sum of Numbers. *)
Definition exportDuration (b : AudioBuffer) (effects : AudioEffects) : float :=
  (duration b + (if Qlt_le_dec 0 (echoFeedback effects) then 3 else 0))%float.

(** [new OfflineAudioContext(numberOfChannels, length, sampleRate)]; the
    [length] argument is converted to an [unsigned long]. *)
Record OfflineAudioContext : Type := mkOffline {
  oc_numberOfChannels : nat;
  oc_length : Z;
  oc_sampleRate : Z
}.

Definition new_OfflineAudioContext (nch : nat) (len : float) (rate : Z)
    : OfflineAudioContext :=
  mkOffline nch (toUnsignedLong len) rate.

(** The context [exportAudio] makes for the current buffer [b]:
    [duration * this.currentBuffer.sampleRate] is a product of Numbers. *)
Definition offlineCtxFor (b : AudioBuffer) (effects : AudioEffects) : OfflineAudioContext :=
  let duration := exportDuration b effects in
  new_OfflineAudioContext (numberOfChannels b)
    (duration * ofZ (ab_sampleRate b))%float (ab_sampleRate b).

(** The duration in seconds of what an offline context renders. *)
Definition oc_duration (c : OfflineAudioContext) : Q :=
  inject_Z (oc_length c) / inject_Z (oc_sampleRate c).

(** The graph [exportAudio] builds in the offline context, as the host
    sees it when rendering starts: the samples of the source's buffer and
    the three parameter values. *)
Record OfflineGraph : Type := mkGraph {
  og_context : OfflineAudioContext;
  og_source : AudioBuffer;
  og_detune : Q;
  og_delayTime : Q;
  og_feedback : Q
}.

(** [async exportAudio(effects)].  [startRendering] is the host's offline
    renderer: the buffer it resolves with, or its rejection. *)
Definition exportAudio (effects : AudioEffects)
    (startRendering : OfflineGraph -> result AudioBuffer) : M World Wave.Blob :=
  cur <- gets currentBuffer ;;
  match cur with
  | None => throw (Error "No audio to export")
  | Some currentBuffer =>
      b <- getBuffer currentBuffer ;;
      let offlineCtx := offlineCtxFor b effects in
      buffer <- (if isReversed effects
                 then
                   reversedBuffer <- cloneBuffer currentBuffer ;;
                   reverseChannels reversedBuffer ;;
                   ret reversedBuffer
                 else ret currentBuffer) ;;
      samples <- getBuffer buffer ;;
      renderedBuffer <- lift (startRendering
        (mkGraph offlineCtx samples (pitch effects) (echoDelay effects) (echoFeedback effects))) ;;
      lift (Wave.bufferToWave renderedBuffer (ab_length renderedBuffer))
  end.

(** *** The host's events *)

(** The host dispatches [ended] at a source node once the node has stopped
    playing: because [stop()] was called on it, or because its buffer has
    played to the end (Web Audio API, AudioScheduledSourceNode).  It does
    so once for a node, and only for one that was started.  The event runs
    the node's [onended] handler, if it has one. *)
Definition dispatchEnded (n : nat) : M World unit :=
  nd <- getSource n ;;
  when (bool_decide (is_Some (sn_started nd)) && negb (sn_ended nd)) (
    updSource n set_sn_ended ;;
    match sn_onended nd with
    | Some onEnded => onended_handler onEnded
    | None => ret tt
    end).

(** The audio clock moves forward. *)
Definition advance (dt : Q) : M World unit :=
  when (Qle_bool 0 dt) (modify (fun w => set_currentTime (currentTime w + dt) w)).

(** *** Runs of the engine *)

(** What happens to an engine: the calls of its user and the events of
    the host. *)
Inductive Call : Type :=
  | CLoadFile (decoded : result AudioBuffer)
  | CPlay (effects : AudioEffects) (onEnded : nat)
  | CPause
  | CStop
  | CUpdateEffects (effects : AudioEffects)
  | CExportAudio (effects : AudioEffects) (startRendering : OfflineGraph -> result AudioBuffer)
  | HEnded (n : nat)
  | HAdvance (dt : Q).

Definition step (c : Call) (w : World) : World :=
  match c with
  | CLoadFile decoded => snd (loadFile decoded w)
  | CPlay effects onEnded => snd (play effects onEnded w)
  | CPause => snd (pause w)
  | CStop => snd (stop w)
  | CUpdateEffects effects => snd (updateEffects effects w)
  | CExportAudio effects host => snd (exportAudio effects host w)
  | HEnded n => snd (dispatchEnded n w)
  | HAdvance dt => snd (advance dt w)
  end.

Definition run (calls : list Call) (w : World) : World :=
  foldl (fun w c => step c w) w calls.

(** The states an engine can be in. *)
Inductive reachable : World -> Prop :=
  | reach_new suspended : reachable (constructor suspended)
  | reach_step c w : reachable w -> reachable (step c w).

(** A source node that is producing sound: started, not halted, and its
    [ended] event not yet dispatched. *)
Definition sounding (nd : SourceNode) : bool :=
  bool_decide (is_Some (sn_started nd)) && negb (sn_stopped nd) && negb (sn_ended nd).

Definition soundingNodes (w : World) : list nat :=
  List.filter (fun n => match sources w !! n with
                        | Some nd => sounding nd
                        | None => false
                        end) (seq 0 (length (sources w))).

End Engine.

(* ===================================================================== *)
(** ** Vocabulary of the properties                                       *)
(* ===================================================================== *)

(** [written w L st]: the locals of [bufferToWave] after stores that wrote
    the bytes [w] from offset 0 on into a fresh buffer of [L] bytes. *)
Definition written (w : list Z) (L : nat) (st : Wave.Locals) : Prop :=
  Wave.view st = w ++ replicate (L - length w) 0%Z
  ∧ Wave.pos st = length w
  ∧ Wave.offset st = 0
  ∧ length w ≤ L.

(** [has_field o n v l]: the [n] bytes of [l] at offset [o] are the
    little-endian bytes of [v]. *)
Definition has_field (o n : nat) (v : Z) (l : list Z) : Prop :=
  take n (drop o l) = JS.le_bytes n v.

(** The 44 bytes that [bufferToWave] writes before the samples, for a buffer
    of [nch] channels at [rate] Hz and a container of [L] bytes. *)
Definition waveHeader (nch : nat) (rate : Z) (L : nat) : list Z :=
  ((((((((((((([] ++ JS.le_bytes 4 0x46464952)
    ++ JS.le_bytes 4 (Z.of_nat L - 8))
    ++ JS.le_bytes 4 0x45564157)
    ++ JS.le_bytes 4 0x20746d66)
    ++ JS.le_bytes 4 16)
    ++ JS.le_bytes 2 1)
    ++ JS.le_bytes 2 (Z.of_nat nch))
    ++ JS.le_bytes 4 rate)
    ++ JS.le_bytes 4 (rate * 2 * Z.of_nat nch))
    ++ JS.le_bytes 2 (Z.of_nat nch * 2))
    ++ JS.le_bytes 2 16)
    ++ JS.le_bytes 4 0x61746164)
    ++ JS.le_bytes 4 (Z.of_nat L - Z.of_nat 40 - 4))%Z.

(** The payload of a result of [bufferToWave], as 16-bit words. *)
Definition payloadWords (r : result Wave.Blob) : option (list Z) :=
  match r with
  | Ok blob => Some (Wave.words16 (Wave.payload (Wave.blob_bytes blob)))
  | Throw _ => None
  end.

(** The unsigned 16-bit word that [setInt16] stores for a sample. *)
Definition sampleWord (x : float) : Z :=
  JS.of_le_bytes (JS.le_bytes 2 (Wave.convertSample x)).

(** The two bytes that [setInt16] stores for a sample. *)
Definition sampleBytes (x : float) : list Z :=
  JS.le_bytes 2 (Wave.convertSample x).

(** The bytes of frame [p]: its sample of every channel, in channel order.
    A channel shorter than [p] reads as NaN, as in [Wave.readSample]. *)
Definition frameBytes (channels : list (list float)) (p : nat) : list Z :=
  concat ((fun ch => sampleBytes (default nan (ch !! p))) <$> channels).

(** What the frame loop of [bufferToWave] leaves after the header: the
    frames from 44 on, then zeros up to the end of the container. *)
Definition framesFrom44 (channels : list (list float)) (len : nat) : list Z :=
  concat (frameBytes channels <$> seq 44 (len - 44))
  ++ replicate (2 * length channels * (len `min` 44)) 0%Z.

(** [stable P m]: running [m] keeps [P], whether [m] returns or throws. *)
Definition stable {St A} (P : St → Prop) (m : M St A) : Prop :=
  ∀ s, P s → P (snd (m s)).

(** The buffer [cloneBuffer] makes of [b]: silence of the same shape with
    the channels of [b] copied over it. *)
Definition cloneOf (b : AudioBuffer) : AudioBuffer :=
  mkAudioBuffer (ab_sampleRate b) (ab_length b)
    ((fun ch => Engine.overwrite ch (replicate (ab_length b) 0%float)) <$> ab_channels b).

(** Every channel of [b] holds [ab_length b] samples, as in every buffer
    the host makes. *)
Definition wellFormed (b : AudioBuffer) : Prop :=
  Forall (fun ch => length ch = ab_length b) (ab_channels b).

(** [b] with every channel reversed. *)
Definition reversed (b : AudioBuffer) : AudioBuffer :=
  Engine.set_channels (@rev float <$> ab_channels b) b.

(** [loaded a b w]: the engine's current buffer is the object [a], and its
    contents are [b]. *)
Definition loaded (a : nat) (b : AudioBuffer) (w : Engine.World) : Prop :=
  Engine.currentBuffer w = Some a ∧ Engine.buffers w !! a = Some b.

(** The source node [createSource] returns, playing the buffer [a]. *)
Definition newSource (a : nat) (effects : AudioEffects) : Engine.SourceNode :=
  Engine.mkSource (Some a) (Engine.mkParam (pitch effects) None) None false None false.

(** A connection list with one more connection, unless it is there. *)
Definition addEdge (e : Engine.NodeRef * Engine.NodeRef)
    (cs : list (Engine.NodeRef * Engine.NodeRef)) : list (Engine.NodeRef * Engine.NodeRef) :=
  if bool_decide (e ∈ cs) then cs else cs ++ [e].

(** The connections [play] makes for the source node [n], in its order. *)
Definition playEdges (n : nat) : list (Engine.NodeRef * Engine.NodeRef) :=
  [(Engine.NSource n, Engine.NGain); (Engine.NSource n, Engine.NDelay);
   (Engine.NDelay, Engine.NFeedback); (Engine.NFeedback, Engine.NDelay);
   (Engine.NDelay, Engine.NGain); (Engine.NGain, Engine.NAnalyser);
   (Engine.NAnalyser, Engine.NDestination)].

(** The source node of a session that [play] has started at [offset] on the
    buffer [a], with the caller's [onEnded] behind its [onended] handler. *)
Definition playingSource (a : nat) (offset : Q) (effects : AudioEffects) (onEnded : nat)
    : Engine.SourceNode :=
  Engine.mkSource (Some a) (Engine.mkParam (pitch effects) None)
    (Some (0%Q, offset)) false (Some onEnded) false.

(** The engine after [play] has started a session from the idle state [w]:
    the source plays the buffer [a] and the buffers are [bs]. *)
Definition sessionStarted (w : Engine.World) (a : nat) (bs : list AudioBuffer)
    (effects : AudioEffects) (onEnded : nat) : Engine.World :=
  {| Engine.sourceNode := Some (length (Engine.sources w));
     Engine.currentBuffer := Engine.currentBuffer w;
     Engine.startTime := (Engine.currentTime w - Engine.pauseTime w)%Q;
     Engine.pauseTime := Engine.pauseTime w;
     Engine.isPlaying := true;
     Engine.ctx_suspended := false;
     Engine.currentTime := Engine.currentTime w;
     Engine.delayTime := Engine.set_value (echoDelay effects) (Engine.delayTime w);
     Engine.feedbackGain := Engine.set_value (echoFeedback effects) (Engine.feedbackGain w);
     Engine.buffers := bs;
     Engine.sources :=
       Engine.sources w ++ [playingSource a (Engine.pauseTime w) effects onEnded];
     Engine.connections :=
       foldl (fun cs e => addEdge e cs) (Engine.connections w)
         (playEdges (length (Engine.sources w)));
     Engine.called := Engine.called w |}.

(** The engine's buffer reference names a buffer of the store. *)
Definition buffer_named (w : Engine.World) : Prop :=
  ∀ a, Engine.currentBuffer w = Some a → is_Some (Engine.buffers w !! a).

(** The engine's source reference names a source node that was started. *)
Definition source_started (w : Engine.World) : Prop :=
  ∀ n, Engine.sourceNode w = Some n →
    ∃ nd, Engine.sources w !! n = Some nd ∧ is_Some (Engine.sn_started nd).

(** The paused offset is not negative and the session did not start after now. *)
Definition times_ordered (w : Engine.World) : Prop :=
  (0 <= Engine.pauseTime w)%Q ∧ (Engine.startTime w <= Engine.currentTime w)%Q.

(** A playing engine has a source node. *)
Definition playing_has_source (w : Engine.World) : Prop :=
  Engine.isPlaying w = true → is_Some (Engine.sourceNode w).

Definition consistent (w : Engine.World) : Prop :=
  buffer_named w ∧ source_started w ∧ times_ordered w ∧ playing_has_source w.


(** The host's [ended] event, among what happens to an engine. *)
Definition isEndedEvent (c : Engine.Call) : bool :=
  match c with
  | Engine.HEnded _ => true
  | _ => false
  end.

(** A call of [play], among what happens to an engine. *)
Definition isPlayCall (c : Engine.Call) : bool :=
  match c with
  | Engine.CPlay _ _ => true
  | _ => false
  end.

(** The source nodes as [stop] leaves them: the engine's source node is
    halted, if there is one and it was started. *)
Definition stoppedSources (w : Engine.World) : list Engine.SourceNode :=
  match Engine.sourceNode w with
  | Some n =>
      alter (fun nd => match Engine.sn_started nd with
                       | Some _ => Engine.set_sn_stopped nd
                       | None => nd
                       end) n
        (Engine.sources w)
  | None => Engine.sources w
  end.

(** An idle engine at offset 0: where [stop] leaves it. *)
Definition rewound (w : Engine.World) : Prop :=
  Engine.isPlaying w = false ∧ Engine.pauseTime w = 0%Q.

(** An engine without a buffer is not playing. *)
Definition unloaded_idle (w : Engine.World) : Prop :=
  Engine.currentBuffer w = None → Engine.isPlaying w = false.

(** One channel, 5 seconds at 8000 Hz. *)
Definition fiveSeconds : AudioBuffer :=
  mkAudioBuffer 8000 40000 [replicate 40000 0.25%float].

(** No pitch shift, no echo, forward. *)
Definition plain : AudioEffects := mkAudioEffects 0 0 0 false.

(** Echo with feedback 0.5. *)
Definition echo : AudioEffects := mkAudioEffects 0 (3 # 10) (1 # 2) false.

(** Echo with feedback 0.5, reversed. *)
Definition echoReversed : AudioEffects := mkAudioEffects 0 (3 # 10) (1 # 2) true.

(** A host renderer that delivers silence of the size of its context. *)
Definition silentRenderer (g : Engine.OfflineGraph) : result AudioBuffer :=
  let c := Engine.og_context g in
  Ok (mkAudioBuffer (Engine.oc_sampleRate c) (Z.to_nat (Engine.oc_length c))
        (replicate (Engine.oc_numberOfChannels c)
           (replicate (Z.to_nat (Engine.oc_length c)) 0%float))).

(** A session that plays 2 seconds, is paused, and after its source's
    [ended] event and 3 idle seconds is resumed for 1 more second and paused
    again. *)
Definition pausedTwice : list Engine.Call :=
  [Engine.CLoadFile (Ok fiveSeconds);
   Engine.CPlay plain 1; Engine.HAdvance 2; Engine.CPause;
   Engine.HEnded 0; Engine.HAdvance 3;
   Engine.CPlay plain 2; Engine.HAdvance 1; Engine.CPause].

(** The same calls, had the host not dispatched [ended]. *)
Definition pausedTwiceUndisturbed : list Engine.Call :=
  [Engine.CLoadFile (Ok fiveSeconds);
   Engine.CPlay plain 1; Engine.HAdvance 2; Engine.CPause;
   Engine.HAdvance 3;
   Engine.CPlay plain 2; Engine.HAdvance 1; Engine.CPause].

(** A session stopped after 1 second, then the [ended] event of its
    source. *)
Definition stoppedOnce : list Engine.Call :=
  [Engine.CLoadFile (Ok fiveSeconds);
   Engine.CPlay plain 1; Engine.HAdvance 1;
   Engine.CStop; Engine.HEnded 0].

(** [play] twice in succession, then the [ended] event of the first
    session's source. *)
Definition playedTwice : list Engine.Call :=
  [Engine.CLoadFile (Ok fiveSeconds);
   Engine.CPlay plain 1; Engine.HAdvance 1;
   Engine.CPlay plain 2; Engine.HEnded 0].

(** One channel, 4 frames, 8000 Hz: the samples 1.0, -1.0, 0.0, 0.5. *)
Definition fourFrames : AudioBuffer :=
  mkAudioBuffer 8000 4 [[1%float; (-1)%float; 0%float; 0.5%float]].

(** One channel, 48 frames, 8000 Hz: 44 frames of silence, then the
    samples 1.0, -1.0, 0.0, 0.5. *)
Definition paddedFourFrames : AudioBuffer :=
  mkAudioBuffer 8000 48
    [replicate 44 0%float ++ [1%float; (-1)%float; 0%float; 0.5%float]].

(** Silence: [nch] channels of [len] frames at [rate] Hz. *)
Definition silence (nch len : nat) (rate : Z) : AudioBuffer :=
  mkAudioBuffer rate len (replicate nch (replicate len 0%float)).

(** 32 channels of 2^26 frames (some 23 minutes) at 48000 Hz: its container
    has 2^32 payload bytes. *)
Definition longRendering : AudioBuffer := silence 32 (Z.to_nat (2 ^ 26)) 48000.

(** One channel, 15 frames, 44100 Hz. *)
Definition fifteenFrames : AudioBuffer :=
  mkAudioBuffer 44100 15 [replicate 15 0.25%float].

(** Sample rates in common use, in Hz. *)
Definition commonRates : list Z :=
  [8000; 11025; 16000; 22050; 24000; 32000; 44100; 48000; 88200; 96000;
   176400; 192000; 384000]%Z.

(** The frames of the context [exportAudio] makes for a buffer of [len]
    frames at [rate] Hz, with a decay tail of [tail] seconds. *)
Definition exportFrames (len rate : Z) (tail : float) : Z :=
  JS.toUnsignedLong ((JS.ofZ len / JS.ofZ rate + tail) * JS.ofZ rate)%float.

(** One channel, 45 frames, 8000 Hz: every sample is -0.25. *)
Definition quarterFrames : AudioBuffer :=
  mkAudioBuffer 8000 45 [replicate 45 (-0.25)%float].

(** Two channels, 3 frames, 44100 Hz. *)
Definition stereoFrames : AudioBuffer :=
  mkAudioBuffer 44100 3
    [[0.5%float; (-0.5)%float; 0.25%float]; [0%float; 1%float; (-1)%float]].

(* ===================================================================== *)
(** * Properties                                                          *)
(* ===================================================================== *)

(** ** Little-endian bytes and [DataView] stores *)

Section Bytes.
Import JS.

Lemma length_le_bytes n v : length (le_bytes n v) = n.
Proof. unfold le_bytes. by rewrite length_fmap, length_seq. Qed.

Lemma le_bytes_S n v :
  le_bytes (S n) v = (v mod 256)%Z :: le_bytes n (v / 256)%Z.
Proof.
  unfold le_bytes. cbn [seq fmap list_fmap]. f_equal.
  - change (8 * Z.of_nat 0)%Z with 0%Z. rewrite Z.shiftr_0_r.
    change 255%Z with (Z.ones 8). by rewrite Z.land_ones.
  - rewrite <- seq_shift, <- list_fmap_compose. apply list_fmap_ext.
    intros _ k _. cbn [compose]. f_equal.
    rewrite Nat2Z.inj_succ.
    replace (8 * Z.succ (Z.of_nat k))%Z with (8 + 8 * Z.of_nat k)%Z by lia.
    rewrite <- Z.shiftr_shiftr by lia. f_equal.
    by rewrite Z.shiftr_div_pow2.
Qed.

Lemma of_le_bytes_le_bytes n v :
  of_le_bytes (le_bytes n v) = (v mod 2 ^ (8 * Z.of_nat n))%Z.
Proof.
  revert v. induction n as [|n IH]; intros v.
  - cbn. by rewrite Z.mod_1_r.
  - rewrite le_bytes_S. cbn [of_le_bytes]. rewrite IH.
    replace (8 * Z.of_nat (S n))%Z with (8 + 8 * Z.of_nat n)%Z by lia.
    rewrite Z.pow_add_r by lia. change (2 ^ 8)%Z with 256%Z.
    rewrite Z.rem_mul_r by lia. reflexivity.
Qed.

Lemma of_le_bytes_small n v :
  (0 <= v < 2 ^ (8 * Z.of_nat n))%Z → of_le_bytes (le_bytes n v) = v.
Proof. intros. rewrite of_le_bytes_le_bytes. by apply Z.mod_small. Qed.

Lemma DataView_set_ok n off v buf :
  off + n ≤ length buf →
  DataView_set n off v buf = Ok (list_inserts off (le_bytes n v) buf).
Proof.
  intros H. unfold DataView_set.
  by rewrite (proj2 (Nat.leb_le _ _) H).
Qed.

Lemma take_inserts_ge {A} (l k : list A) n i :
  n ≤ i → take n (list_inserts i k l) = take n l.
Proof.
  revert i. induction k as [|y k IH]; intros i Hni; cbn [list_inserts]; [done|].
  rewrite take_insert_ge by done. apply IH. lia.
Qed.

(** Storing at the end of what has been written so far, into zeros. *)
Lemma inserts_at_end (w bs : list Z) m :
  length bs ≤ m →
  list_inserts (length w) bs (w ++ replicate m 0%Z)
  = (w ++ bs) ++ replicate (m - length bs) 0%Z.
Proof.
  intros Hm.
  replace (length w) with (length w + 0) at 1 by lia.
  rewrite list_inserts_app_r.
  replace m with (length bs + (m - length bs)) at 1 by lia.
  rewrite replicate_add, list_inserts_0_r by (by rewrite length_replicate).
  by rewrite <- (assoc_L (++)).
Qed.

End Bytes.

(** ** The header and the loop of [bufferToWave] *)

Section WaveFacts.
Import JS Wave.

Lemma bind_ok {St A B} (m : M St A) (k : A → M St B) s a s' :
  m s = (Ok a, s') → bind m k s = k a s'.
Proof. intros E. unfold bind. by rewrite E. Qed.

Lemma bind_throw {St A B} (m : M St A) (k : A → M St B) s e s' :
  m s = (Throw e, s') → bind m k s = (Throw e, s').
Proof. intros E. unfold bind. by rewrite E. Qed.

Lemma setUint_written n v w L st k :
  written w L st → length w = k → k + n ≤ L →
  ∃ st', (Ok tt, st') =
         match DataView_set n (pos st) v (view st) with
         | Ok b => (Ok tt, {| view := b; offset := offset st; pos := pos st + n |})
         | Throw e => (Throw e, st)
         end
    ∧ written (w ++ le_bytes n v) L st'
    ∧ length (w ++ le_bytes n v) = k + n.
Proof.
  intros (Hv & Hp & Ho & Hl) Hk Hn.
  rewrite DataView_set_ok.
  2:{ rewrite Hv, Hp, length_app, length_replicate. lia. }
  eexists. split; [reflexivity|].
  assert (Hlen : length (w ++ le_bytes n v) = k + n)
    by (rewrite length_app, length_le_bytes; lia).
  split; [|done]. repeat split; cbn [view pos offset].
  - rewrite Hv, Hp, inserts_at_end by (rewrite length_le_bytes; lia).
    rewrite length_le_bytes, Hlen. do 2 f_equal. lia.
  - rewrite Hp, Hlen. lia.
  - done.
  - lia.
Qed.

Lemma setUint32_written v w L st k :
  written w L st → length w = k → k + 4 ≤ L →
  ∃ st', setUint32 v st = (Ok tt, st')
    ∧ written (w ++ le_bytes 4 v) L st'
    ∧ length (w ++ le_bytes 4 v) = k + 4.
Proof.
  intros Hw Hk Hn.
  destruct (setUint_written 4 v w L st k Hw Hk Hn) as (st' & E & H).
  exists st'. split; [|done]. by rewrite E.
Qed.

Lemma setUint16_written v w L st k :
  written w L st → length w = k → k + 2 ≤ L →
  ∃ st', setUint16 v st = (Ok tt, st')
    ∧ written (w ++ le_bytes 2 v) L st'
    ∧ length (w ++ le_bytes 2 v) = k + 2.
Proof.
  intros Hw Hk Hn.
  destruct (setUint_written 2 v w L st k Hw Hk Hn) as (st' & E & H).
  exists st'. split; [|done]. by rewrite E.
Qed.

Lemma writeChannel_ok channels i st :
  i < length channels →
  44 + offset st + 2 ≤ length (view st) →
  ∃ st', writeChannel channels i st = (Ok tt, st')
    ∧ length (view st') = length (view st)
    ∧ take 44 (view st') = take 44 (view st)
    ∧ offset st' = offset st + 2
    ∧ pos st' = pos st.
Proof.
  intros Hi Hb. unfold writeChannel, readSample.
  destruct (lookup_lt_is_Some_2 channels i Hi) as [ch ->].
  unfold DataView_setInt16. rewrite DataView_set_ok by lia.
  eexists. split; [reflexivity|]. cbn [view offset pos].
  rewrite length_inserts, take_inserts_ge by lia. done.
Qed.

Lemma writeChannels_ok channels n : ∀ i0 st,
  i0 + n ≤ length channels →
  44 + offset st + 2 * n ≤ length (view st) →
  ∃ st', for_range i0 n (writeChannel channels) st = (Ok tt, st')
    ∧ length (view st') = length (view st)
    ∧ take 44 (view st') = take 44 (view st)
    ∧ offset st' = offset st + 2 * n
    ∧ pos st' = pos st.
Proof.
  induction n as [|n IH]; intros i0 st Hi Hb; cbn [for_range].
  - exists st. unfold ret. repeat split; lia.
  - destruct (writeChannel_ok channels i0 st) as (st1 & E1 & L1 & T1 & O1 & P1); [lia..|].
    destruct (IH (S i0) st1) as (st2 & E2 & L2 & T2 & O2 & P2); [lia..|].
    exists st2. rewrite (bind_ok _ _ _ _ _ E1), E2.
    repeat split; [congruence | congruence | lia | congruence].
Qed.

Lemma while_pos_lt_ok channels len rounds : ∀ st,
  44 + offset st + 2 * length channels * rounds ≤ length (view st) →
  ∃ st', while_pos_lt len rounds
           (for_range 0 (length channels) (writeChannel channels)) st = (Ok tt, st')
    ∧ length (view st') = length (view st)
    ∧ take 44 (view st') = take 44 (view st).
Proof.
  induction rounds as [|r IH]; intros st Hb; cbn [while_pos_lt].
  - exists st. by unfold ret.
  - destruct (pos st <? len); [|by exists st].
    destruct (writeChannels_ok channels (length channels) 0 st)
      as (st1 & E1 & L1 & T1 & O1 & P1); [lia..|].
    rewrite (bind_ok _ _ _ _ _ E1).
    unfold incr_pos at 1, modify. unfold bind at 1.
    set (st2 := {| view := view st1; offset := offset st1; pos := pos st1 + 1 |}).
    destruct (IH st2) as (st3 & E3 & L3 & T3).
    { subst st2. cbn [view offset]. lia. }
    exists st3. rewrite E3. subst st2. cbn [view] in *. split; [done|]. split; congruence.
Qed.

Ltac header_store lem :=
  match goal with
  | Hw : written ?w ?L ?st, Hk : length ?w = ?k |- context [bind (_ ?v) _ ?st] =>
      let st' := fresh "st" in
      let E := fresh "E" in
      let Hw' := fresh "Hw" in
      let Hk' := fresh "Hk" in
      destruct (lem v w L st k Hw Hk ltac:(lia)) as (st' & E & Hw' & Hk');
      rewrite (bind_ok _ _ _ _ _ E); clear E Hw Hk; cbn [Nat.add] in Hk'
  end.

Ltac header_pos :=
  match goal with
  | Hw : written ?w ?L ?st, Hk : length ?w = ?k |- context [bind (gets pos) _ ?st] =>
      rewrite (bind_ok (gets pos) _ st (pos st) st eq_refl);
      replace (pos st) with k by (destruct Hw as (_ & -> & _); done)
  end.

Lemma writeWave_ok abuffer len :
  let nch := numberOfChannels abuffer in
  let L := len * nch * 2 + 44 in
  ∃ st', writeWave abuffer len L {| view := new_ArrayBuffer L; offset := 0; pos := 0 |}
         = (Ok tt, st')
    ∧ length (view st') = L
    ∧ take 44 (view st') = waveHeader nch (ab_sampleRate abuffer) L.
Proof.
  intros nch L.
  assert (HL : 44 ≤ L) by (subst L; lia).
  assert (Hloop : 2 * nch * (len - 44) ≤ L - 44) by (subst L; nia).
  clearbody L.
  assert (Hw : written [] L {| view := new_ArrayBuffer L; offset := 0; pos := 0 |}).
  { unfold written, new_ArrayBuffer. cbn. repeat split; [f_equal; lia | lia]. }
  assert (Hk : length (@nil Z) = 0) by done.
  unfold writeWave. fold nch.
  header_store setUint32_written. header_store setUint32_written.
  header_store setUint32_written. header_store setUint32_written.
  header_store setUint32_written. header_store setUint16_written.
  header_store setUint16_written. header_store setUint32_written.
  header_store setUint32_written. header_store setUint16_written.
  header_store setUint16_written. header_store setUint32_written.
  header_pos. header_store setUint32_written. header_pos.
  match goal with
  | Hw : written ?w L ?st, Hk' : length ?w = _ |- _ =>
      rename Hk' into Hk44;
      destruct Hw as (Hv & Hp & Ho & Hl);
      destruct (while_pos_lt_ok (ab_channels abuffer) len (len - 44) st)
        as (st' & E & Hlen & Htake)
  end.
  { rewrite Ho, Hv, length_app, length_replicate, Hk44. fold (numberOfChannels abuffer).
    fold nch. lia. }
  exists st'. split; [exact E|].
  rewrite Hlen, Htake, Hv, length_app, length_replicate.
  split; [lia|]. by rewrite take_app_length'.
Qed.

Lemma has_field_here o n v (w : list Z) :
  length w = o → has_field o n v (w ++ le_bytes n v).
Proof.
  intros <-. unfold has_field. rewrite drop_app_length.
  apply take_ge. by rewrite length_le_bytes.
Qed.

Lemma has_field_app o n v (w x : list Z) :
  has_field o n v w → has_field o n v (w ++ x).
Proof.
  unfold has_field. intros H.
  assert (Hn : n ≤ length (drop o w)).
  { apply (f_equal length) in H. rewrite length_take, length_le_bytes in H. lia. }
  rewrite drop_app, take_app_le by done. exact H.
Qed.

Lemma has_field_take o n v m (l : list Z) :
  o + n ≤ m → has_field o n v (take m l) → has_field o n v l.
Proof.
  unfold has_field. intros Hm H.
  rewrite <- H, !take_drop_commute, take_take. do 2 f_equal. lia.
Qed.

Lemma getUint_field o n v (l : list Z) :
  0 < n → has_field o n v l →
  DataView_getUint n o l = Some (v mod 2 ^ (8 * Z.of_nat n))%Z.
Proof.
  unfold has_field, DataView_getUint. intros Hpos H.
  assert (Hn : o + n ≤ length l).
  { apply (f_equal length) in H.
    rewrite length_take, length_drop, length_le_bytes in H.
    lia. }
  rewrite (proj2 (Nat.leb_le _ _) Hn), H. by rewrite of_le_bytes_le_bytes.
Qed.

Ltac find_field :=
  first [ solve [ apply has_field_here; rewrite ?length_app, ?length_le_bytes; reflexivity ]
        | apply has_field_app; find_field ].

Lemma waveHeader_fields nch rate L :
  let h := waveHeader nch rate L in
  has_field 4 4 (Z.of_nat L - 8) h
  ∧ has_field 22 2 (Z.of_nat nch) h
  ∧ has_field 24 4 rate h
  ∧ has_field 28 4 (rate * 2 * Z.of_nat nch) h
  ∧ has_field 32 2 (Z.of_nat nch * 2) h
  ∧ has_field 34 2 16 h
  ∧ has_field 40 4 (Z.of_nat L - 44) h.
Proof.
  cbv zeta. unfold waveHeader.
  replace (Z.of_nat L - Z.of_nat 40 - 4)%Z with (Z.of_nat L - 44)%Z by lia.
  repeat split; find_field.
Qed.

Lemma waveHeader_magic nch rate L :
  let h := waveHeader nch rate L in
  has_field 0 4 0x46464952 h
  ∧ has_field 8 4 0x45564157 h
  ∧ has_field 12 4 0x20746d66 h
  ∧ has_field 16 4 16 h
  ∧ has_field 20 2 1 h
  ∧ has_field 36 4 0x61746164 h.
Proof. cbv zeta. unfold waveHeader. repeat split; find_field. Qed.

(** [bufferToWave] up to its frame loop: the header is written, [pos] is
    44, and what is left to run is the loop. *)
Lemma writeWave_header abuffer len :
  let nch := numberOfChannels abuffer in
  let L := len * nch * 2 + 44 in
  ∃ st, written (waveHeader nch (ab_sampleRate abuffer) L) L st
    ∧ pos st = 44
    ∧ writeWave abuffer len L {| view := new_ArrayBuffer L; offset := 0; pos := 0 |}
      = while_pos_lt len (len - 44)
          (for_range 0 nch (writeChannel (ab_channels abuffer))) st.
Proof.
  intros nch L.
  assert (HL : 44 ≤ L) by (subst L; lia).
  clearbody L.
  assert (Hw : written [] L {| view := new_ArrayBuffer L; offset := 0; pos := 0 |}).
  { unfold written, new_ArrayBuffer. cbn. repeat split; [f_equal; lia | lia]. }
  assert (Hk : length (@nil Z) = 0) by done.
  unfold writeWave. fold nch.
  header_store setUint32_written. header_store setUint32_written.
  header_store setUint32_written. header_store setUint32_written.
  header_store setUint32_written. header_store setUint16_written.
  header_store setUint16_written. header_store setUint32_written.
  header_store setUint32_written. header_store setUint16_written.
  header_store setUint16_written. header_store setUint32_written.
  header_pos. header_store setUint32_written. header_pos.
  match goal with
  | Hw : written ?w L ?st, Hk' : length ?w = _ |- _ =>
      exists st; split; [exact Hw|]; split; [|reflexivity];
      destruct Hw as (_ & -> & _); exact Hk'
  end.
Qed.

End WaveFacts.

(** ** The encoded container *)

Section WaveClaims.
Import JS Wave.

(** C10, amended.  For every buffer and frame count whose container fits
    the 32-bit length fields of the format, [bufferToWave] returns a container of
    exactly 44 + frames * channels * 2 bytes, whose RIFF length field is
    that total minus 8 and whose data-chunk length field is
    frames * channels * 2, whatever the sample values. *)
Theorem bufferToWave_sizes (abuffer : AudioBuffer) (len : nat) :
  (44 + Z.of_nat len * Z.of_nat (numberOfChannels abuffer) * 2 < 2 ^ 32)%Z →
  ∃ blob, bufferToWave abuffer len = Ok blob
    ∧ Z.of_nat (length (blob_bytes blob))
      = (44 + Z.of_nat len * Z.of_nat (numberOfChannels abuffer) * 2)%Z
    ∧ riffLength (blob_bytes blob)
      = Some (44 + Z.of_nat len * Z.of_nat (numberOfChannels abuffer) * 2 - 8)%Z
    ∧ dataLength (blob_bytes blob)
      = Some (Z.of_nat len * Z.of_nat (numberOfChannels abuffer) * 2)%Z.
Proof.
  intros Hfit. unfold bufferToWave.
  destruct (writeWave_ok abuffer len) as (st & E & Hlen & Hhdr).
  rewrite E. eexists. split; [reflexivity|]. cbn [blob_bytes].
  set (nch := numberOfChannels abuffer) in *.
  set (L := len * nch * 2 + 44) in *.
  assert (HL : Z.of_nat L = (44 + Z.of_nat len * Z.of_nat nch * 2)%Z) by (subst L; lia).
  destruct (waveHeader_fields nch (ab_sampleRate abuffer) L)
    as (Hriff & _ & _ & _ & _ & _ & Hdata).
  rewrite <- Hhdr in Hriff, Hdata.
  apply has_field_take in Hriff; [|lia]. apply has_field_take in Hdata; [|lia].
  split; [lia|]. unfold riffLength, dataLength.
  rewrite (getUint_field 4 4 _ _ ltac:(lia) Hriff), (getUint_field 40 4 _ _ ltac:(lia) Hdata).
  change (2 ^ (8 * Z.of_nat 4))%Z with (2 ^ 32)%Z.
  rewrite !Z.mod_small by lia. split; f_equal; lia.
Qed.

(** The sizes of the container of the 3 stereo frames: 56 bytes. *)
Lemma bufferToWave_sizes_witness :
  (44 + Z.of_nat 3 * Z.of_nat (numberOfChannels stereoFrames) * 2 < 2 ^ 32)%Z
  ∧ ∃ blob, bufferToWave stereoFrames 3 = Ok blob
    ∧ Z.of_nat (length (blob_bytes blob))
      = (44 + Z.of_nat 3 * Z.of_nat (numberOfChannels stereoFrames) * 2)%Z
    ∧ riffLength (blob_bytes blob)
      = Some (44 + Z.of_nat 3 * Z.of_nat (numberOfChannels stereoFrames) * 2 - 8)%Z
    ∧ dataLength (blob_bytes blob)
      = Some (Z.of_nat 3 * Z.of_nat (numberOfChannels stereoFrames) * 2)%Z.
Proof.
  split; [reflexivity | apply (bufferToWave_sizes stereoFrames 3); reflexivity].
Defined.

(** The two length fields of every container: the lengths modulo 2^32,
    which is what [setUint32] stores. *)
Lemma bufferToWave_length_fields (abuffer : AudioBuffer) (len : nat) :
  ∃ blob, bufferToWave abuffer len = Ok blob
    ∧ Z.of_nat (length (blob_bytes blob))
      = (44 + Z.of_nat len * Z.of_nat (numberOfChannels abuffer) * 2)%Z
    ∧ riffLength (blob_bytes blob)
      = Some ((44 + Z.of_nat len * Z.of_nat (numberOfChannels abuffer) * 2 - 8)
              mod 2 ^ 32)%Z
    ∧ dataLength (blob_bytes blob)
      = Some ((Z.of_nat len * Z.of_nat (numberOfChannels abuffer) * 2) mod 2 ^ 32)%Z.
Proof.
  unfold bufferToWave.
  destruct (writeWave_ok abuffer len) as (st & E & Hlen & Hhdr).
  rewrite E. eexists. split; [reflexivity|]. cbn [blob_bytes].
  set (nch := numberOfChannels abuffer) in *.
  set (L := len * nch * 2 + 44) in *.
  assert (HL : Z.of_nat L = (44 + Z.of_nat len * Z.of_nat nch * 2)%Z) by (subst L; lia).
  destruct (waveHeader_fields nch (ab_sampleRate abuffer) L)
    as (Hriff & _ & _ & _ & _ & _ & Hdata).
  rewrite <- Hhdr in Hriff, Hdata.
  apply has_field_take in Hriff; [|lia]. apply has_field_take in Hdata; [|lia].
  split; [lia|]. unfold riffLength, dataLength.
  rewrite (getUint_field 4 4 _ _ ltac:(lia) Hriff), (getUint_field 40 4 _ _ ltac:(lia) Hdata).
  change (2 ^ (8 * Z.of_nat 4))%Z with (2 ^ 32)%Z.
  split; do 2 f_equal; lia.
Qed.

(** The length fields of the container of 32 channels of [n] frames, when
    [n] is 2^26. *)
Lemma silence_length_fields_wrap (n : nat) (rate : Z) :
  Z.of_nat n = (2 ^ 26)%Z →
  ∃ blob, bufferToWave (silence 32 n rate) n = Ok blob
    ∧ Z.of_nat (length (blob_bytes blob)) = (44 + 2 ^ 26 * 32 * 2)%Z
    ∧ riffLength (blob_bytes blob) = Some 36%Z
    ∧ dataLength (blob_bytes blob) = Some 0%Z.
Proof.
  intros Hn.
  destruct (bufferToWave_length_fields (silence 32 n rate) n)
    as (blob & E & Hlen & Hriff & Hdata).
  assert (Hc : Z.of_nat (numberOfChannels (silence 32 n rate)) = 32%Z).
  { unfold numberOfChannels, silence. cbn [ab_channels]. by rewrite length_replicate. }
  rewrite Hn, Hc in Hlen, Hriff, Hdata.
  exists blob. split; [exact E|]. split; [exact Hlen|].
  by rewrite Hriff, Hdata.
Qed.

(** C10 as stated fails beyond the range of the 32-bit fields: the
    container of 32 channels of 2^26 frames is 2^32 + 44 bytes long, and its
    RIFF length field holds 36 and its data-chunk length field 0, not the
    total minus 8 and the 2^32 bytes of the payload. *)
Lemma longRendering_length_fields_wrap :
  ∃ blob, bufferToWave longRendering (ab_length longRendering) = Ok blob
    ∧ Z.of_nat (length (blob_bytes blob)) = (44 + 2 ^ 26 * 32 * 2)%Z
    ∧ riffLength (blob_bytes blob) = Some 36%Z
    ∧ dataLength (blob_bytes blob) = Some 0%Z
    ∧ riffLength (blob_bytes blob) ≠ Some (Z.of_nat (length (blob_bytes blob)) - 8)%Z
    ∧ dataLength (blob_bytes blob) ≠ Some (2 ^ 26 * 32 * 2)%Z.
Proof.
  destruct (silence_length_fields_wrap (Z.to_nat (2 ^ 26)) 48000)
    as (blob & E & Hlen & Hriff & Hdata).
  { apply Z2Nat.id. by apply Z.pow_nonneg. }
  exists blob. split; [exact E|]. split; [exact Hlen|].
  split; [exact Hriff|]. split; [exact Hdata|].
  rewrite Hriff, Hdata, Hlen. split; intros [= H]; discriminate H.
Qed.


(** The header of every container that fits the 32-bit and 16-bit fields of
    the format: PCM stereo or mono or more, the buffer's channel count and
    sample rate, a byte rate of sampleRate * 2 * channels, a block alignment
    of channels * 2, and 16 bits per sample. *)
Theorem bufferToWave_header (abuffer : AudioBuffer) (len : nat) :
  (0 <= ab_sampleRate abuffer < 2 ^ 32)%Z →
  (ab_sampleRate abuffer * 2 * Z.of_nat (numberOfChannels abuffer) < 2 ^ 32)%Z →
  (Z.of_nat (numberOfChannels abuffer) * 2 < 2 ^ 16)%Z →
  ∃ blob, bufferToWave abuffer len = Ok blob
    ∧ channelCount (blob_bytes blob) = Some (Z.of_nat (numberOfChannels abuffer))
    ∧ headerSampleRate (blob_bytes blob) = Some (ab_sampleRate abuffer)
    ∧ byteRate (blob_bytes blob)
      = Some (ab_sampleRate abuffer * 2 * Z.of_nat (numberOfChannels abuffer))%Z
    ∧ blockAlign (blob_bytes blob) = Some (Z.of_nat (numberOfChannels abuffer) * 2)%Z
    ∧ bitsPerSample (blob_bytes blob) = Some 16%Z.
Proof.
  intros Hrate Hbr Hba. unfold bufferToWave.
  destruct (writeWave_ok abuffer len) as (st & E & Hlen & Hhdr).
  rewrite E. eexists. split; [reflexivity|]. cbn [blob_bytes].
  set (nch := numberOfChannels abuffer) in *.
  set (L := len * nch * 2 + 44) in *.
  destruct (waveHeader_fields nch (ab_sampleRate abuffer) L)
    as (_ & Hch & Hsr & Hb & Hal & Hbits & _).
  rewrite <- Hhdr in Hch, Hsr, Hb, Hal, Hbits.
  apply has_field_take in Hch; [|lia]. apply has_field_take in Hsr; [|lia].
  apply has_field_take in Hb; [|lia]. apply has_field_take in Hal; [|lia].
  apply has_field_take in Hbits; [|lia].
  unfold channelCount, headerSampleRate, byteRate, blockAlign, bitsPerSample.
  rewrite (getUint_field 22 2 _ _ ltac:(lia) Hch), (getUint_field 24 4 _ _ ltac:(lia) Hsr),
    (getUint_field 28 4 _ _ ltac:(lia) Hb), (getUint_field 32 2 _ _ ltac:(lia) Hal),
    (getUint_field 34 2 _ _ ltac:(lia) Hbits).
  change (2 ^ (8 * Z.of_nat 4))%Z with (2 ^ 32)%Z.
  change (2 ^ (8 * Z.of_nat 2))%Z with (2 ^ 16)%Z.
  repeat split; f_equal; apply Z.mod_small; nia.
Qed.

(** The header of the container of the 3 stereo frames at 44100 Hz. *)
Lemma bufferToWave_header_witness :
  ((0 <= ab_sampleRate stereoFrames < 2 ^ 32)%Z
   ∧ (ab_sampleRate stereoFrames * 2 * Z.of_nat (numberOfChannels stereoFrames) < 2 ^ 32)%Z
   ∧ (Z.of_nat (numberOfChannels stereoFrames) * 2 < 2 ^ 16)%Z)
  ∧ ∃ blob, bufferToWave stereoFrames 3 = Ok blob
    ∧ channelCount (blob_bytes blob) = Some (Z.of_nat (numberOfChannels stereoFrames))
    ∧ headerSampleRate (blob_bytes blob) = Some (ab_sampleRate stereoFrames)
    ∧ byteRate (blob_bytes blob)
      = Some (ab_sampleRate stereoFrames * 2 * Z.of_nat (numberOfChannels stereoFrames))%Z
    ∧ blockAlign (blob_bytes blob) = Some (Z.of_nat (numberOfChannels stereoFrames) * 2)%Z
    ∧ bitsPerSample (blob_bytes blob) = Some 16%Z.
Proof.
  split; [by vm_compute|].
  apply (bufferToWave_header stereoFrames 3); by vm_compute.
Defined.

(** C1.  The conversion of one sample, at -0.25: the code compares
    0.5 + sample with 0, so it scales this negative sample by 32767 and
    stores -8191, where the documented rule (negative values times 32768)
    gives -8192.  Through [bufferToWave], a buffer of 45 frames of -0.25
    comes out as one word 0xE001 followed by 44 zero words: the frame loop
    starts at frame 44, where the header left [pos], and not at frame 0. *)
Theorem convertSample_at_minus_quarter :
  convertSample (-0.25)%float = (-8191)%Z
  ∧ spec_convertSample (-0.25)%float = (-8192)%Z
  ∧ sampleWord (-0.25)%float = 0xE001%Z
  ∧ payloadWords (bufferToWave quarterFrames 45) = Some (0xE001%Z :: replicate 44 0%Z).
Proof. vm_compute. done. Qed.

(** C2.  Encoding the single-channel buffer of the 4 frames
    1.0, -1.0, 0.0, 0.5 at 8000 Hz gives the 44-byte header the claim states
    (1 channel, sample rate 8000, byte rate 16000, block alignment 2,
    16 bits per sample, 8 data bytes), followed by 8 payload bytes that are
    all zero: the frame loop starts at frame 44, where the header writers
    left [pos], so none of the four samples is converted.  The same four
    samples at the frames 44 to 47 of a 48-frame buffer are the first four
    words of the payload, 0x7FFF, 0x8000, 0x0000 and 0x3FFF. *)
Theorem fourFrames_encoded_as_silence :
  (∃ blob, bufferToWave fourFrames 4 = Ok blob
     ∧ length (blob_bytes blob) = 44 + 8
     ∧ channelCount (blob_bytes blob) = Some 1%Z
     ∧ headerSampleRate (blob_bytes blob) = Some 8000%Z
     ∧ byteRate (blob_bytes blob) = Some 16000%Z
     ∧ blockAlign (blob_bytes blob) = Some 2%Z
     ∧ bitsPerSample (blob_bytes blob) = Some 16%Z
     ∧ dataLength (blob_bytes blob) = Some 8%Z
     ∧ payload (blob_bytes blob) = [0; 0; 0; 0; 0; 0; 0; 0]%Z)
  ∧ payloadWords (bufferToWave fourFrames 4) = Some [0; 0; 0; 0]%Z
  ∧ payloadWords (bufferToWave fourFrames 4)
    ≠ Some [0x7FFF; 0x8000; 0x0000; 0x4000]%Z
  ∧ payloadWords (bufferToWave paddedFourFrames 48)
    = Some ([0x7FFF; 0x8000; 0x0000; 0x3FFF] ++ replicate 44 0)%Z.
Proof.
  split; [|split; [|split]].
  - eexists. split; [vm_compute; reflexivity|]. vm_compute. done.
  - by vm_compute.
  - by vm_compute.
  - by vm_compute.
Qed.

End WaveClaims.

(** ** Reasoning about computations *)

Section MonadFacts.
Context {St : Type}.

Lemma stable_ret {A} (P : St → Prop) (a : A) : stable P (ret a).
Proof. by intros s. Qed.

Lemma stable_throw {A} (P : St → Prop) e : stable P (@throw St A e).
Proof. by intros s. Qed.

Lemma stable_gets {A} (P : St → Prop) (f : St → A) : stable P (gets f).
Proof. by intros s. Qed.

Lemma stable_reads {A} (P : St → Prop) (f : St → result A) : stable P (reads f).
Proof. by intros s. Qed.

Lemma stable_modify (P : St → Prop) (f : St → St) :
  (∀ s, P s → P (f s)) → stable P (modify f).
Proof. intros H s. apply H. Qed.

Lemma stable_bind {A B} (P : St → Prop) (m : M St A) (k : A → M St B) :
  stable P m → (∀ a, stable P (k a)) → stable P (bind m k).
Proof.
  intros Hm Hk s Hs. unfold bind. specialize (Hm s Hs).
  destruct (m s) as [[a|e] s']; cbn in *; [by apply Hk | done].
Qed.

Lemma stable_when (P : St → Prop) c (m : M St unit) :
  stable P m → stable P (when c m).
Proof. intros H. destruct c; [done | apply stable_ret]. Qed.

Lemma stable_try_ignore (P : St → Prop) (m : M St unit) :
  stable P m → stable P (try_ignore m).
Proof.
  intros H s Hs. unfold try_ignore. specialize (H s Hs).
  by destruct (m s) as [[a|e] s'].
Qed.

Lemma stable_for_range (P : St → Prop) body n : ∀ i0,
  (∀ i, stable P (body i)) → stable P (for_range i0 n body).
Proof.
  induction n as [|n IH]; intros i0 H; cbn [for_range].
  - apply stable_ret.
  - apply stable_bind; [apply H | intros _; by apply IH].
Qed.

(** A loop whose every round returns and carries an invariant on. *)
Lemma for_range_ok (Inv : nat → St → Prop) body n : ∀ i0 s,
  Inv i0 s →
  (∀ i t, i0 ≤ i < i0 + n → Inv i t → ∃ t', body i t = (Ok tt, t') ∧ Inv (S i) t') →
  ∃ s', for_range i0 n body s = (Ok tt, s') ∧ Inv (i0 + n) s'.
Proof.
  induction n as [|n IH]; intros i0 s Hs Hbody; cbn [for_range].
  - exists s. by rewrite Nat.add_0_r.
  - destruct (Hbody i0 s) as (t & E & Ht); [lia | done |].
    destruct (IH (S i0) t Ht) as (s' & E' & Hs').
    { intros i u Hi. apply Hbody. lia. }
    exists s'. rewrite (bind_ok _ _ _ _ _ E), E'.
    split; [done|]. by rewrite Nat.add_succ_r.
Qed.

End MonadFacts.

(** ** The payload of [bufferToWave] *)

Section WavePayload.
Import JS Wave.

(** One store of the frame loop, into the zeros that follow what has been
    written so far. *)
Lemma writeChannel_fill channels i ch st pre m :
  channels !! i = Some ch →
  view st = pre ++ replicate m 0%Z → length pre = 44 + offset st → 2 ≤ m →
  writeChannel channels i st
  = (Ok tt, {| view := (pre ++ sampleBytes (default nan (ch !! pos st)))
                       ++ replicate (m - 2) 0%Z;
               offset := offset st + 2; pos := pos st |}).
Proof.
  intros Hch Hv Hpre Hm. unfold writeChannel, readSample. rewrite Hch.
  unfold DataView_setInt16. rewrite DataView_set_ok.
  2:{ rewrite Hv, length_app, length_replicate. lia. }
  do 2 f_equal. rewrite Hv, <- Hpre.
  rewrite inserts_at_end by (rewrite length_le_bytes; lia).
  by rewrite length_le_bytes.
Qed.

Lemma length_sampleBytes x : length (sampleBytes x) = 2.
Proof. apply length_le_bytes. Qed.

Lemma length_concat_fmap {A} (f : A → list Z) k (l : list A) :
  (∀ x, length (f x) = k) → length (concat (f <$> l)) = k * length l.
Proof.
  intros Hf. induction l as [|x l IH]; [cbn; lia|].
  rewrite fmap_cons. cbn [concat]. rewrite length_app, Hf, IH. cbn [length]. lia.
Qed.

Lemma length_frameBytes channels p : length (frameBytes channels p) = 2 * length channels.
Proof. unfold frameBytes. apply length_concat_fmap. intros ch. apply length_sampleBytes. Qed.

Lemma length_frames channels p n :
  length (concat (frameBytes channels <$> seq p n)) = 2 * length channels * n.
Proof.
  rewrite (length_concat_fmap _ (2 * length channels)), length_seq; [done|].
  intros q. apply length_frameBytes.
Qed.

(** One round of the frame loop: the frame at [pos], channel by channel. *)
Lemma writeFrame_fill channels st pre m :
  view st = pre ++ replicate m 0%Z → length pre = 44 + offset st →
  2 * length channels ≤ m →
  for_range 0 (length channels) (writeChannel channels) st
  = (Ok tt, {| view := (pre ++ frameBytes channels (pos st))
                       ++ replicate (m - 2 * length channels) 0%Z;
               offset := offset st + 2 * length channels; pos := pos st |}).
Proof.
  intros Hv Hpre Hm.
  set (sb := fun ch : list float => sampleBytes (default nan (ch !! pos st))).
  destruct (for_range_ok
    (fun i t => t = {| view := (pre ++ concat (sb <$> take i channels))
                               ++ replicate (m - 2 * i) 0%Z;
                       offset := offset st + 2 * i; pos := pos st |})
    (writeChannel channels) (length channels) 0 st) as (st' & E & Hst').
  - destruct st as [v o p]. cbn [view offset pos] in *.
    rewrite take_0, fmap_nil. cbn [concat]. rewrite app_nil_r, Nat.sub_0_r, Nat.add_0_r.
    by rewrite Hv.
  - intros i t Hi ->.
    destruct (lookup_lt_is_Some_2 channels i) as [ch Hch]; [lia|].
    erewrite (writeChannel_fill channels i ch _ _ (m - 2 * i)); [|done|reflexivity| |lia].
    2:{ cbn [offset]. rewrite length_app.
        rewrite (length_concat_fmap sb 2), length_take by (intros; apply length_sampleBytes).
        lia. }
    eexists. split; [reflexivity|]. cbn [view offset pos].
    rewrite (take_S_r _ _ _ Hch), fmap_app, concat_app. cbn [fmap list_fmap concat].
    rewrite app_nil_r, <- !(assoc_L (++)).
    replace (m - 2 * i - 2) with (m - 2 * S i) by lia.
    replace (offset st + 2 * i + 2) with (offset st + 2 * S i) by lia.
    reflexivity.
  - rewrite E, Hst'. cbn [Nat.add]. rewrite take_ge by lia. reflexivity.
Qed.

(** The frame loop from [pos] on: [len - pos] rounds, each one frame. *)
Lemma while_pos_lt_fill channels len rounds : ∀ st pre m,
  view st = pre ++ replicate m 0%Z → length pre = 44 + offset st →
  rounds = len - pos st → 2 * length channels * rounds ≤ m →
  ∃ st', while_pos_lt len rounds
           (for_range 0 (length channels) (writeChannel channels)) st = (Ok tt, st')
    ∧ view st' = (pre ++ concat (frameBytes channels <$> seq (pos st) rounds))
                 ++ replicate (m - 2 * length channels * rounds) 0%Z.
Proof.
  induction rounds as [|r IH]; intros st pre m Hv Hpre Hr Hm; cbn [while_pos_lt].
  - exists st. split; [done|]. cbn [seq fmap list_fmap concat].
    rewrite app_nil_r, Nat.mul_0_r, Nat.sub_0_r. exact Hv.
  - rewrite (proj2 (Nat.ltb_lt (pos st) len)) by lia.
    rewrite (bind_ok _ _ _ _ _ (writeFrame_fill channels st pre m Hv Hpre ltac:(lia))).
    unfold incr_pos at 1, modify. unfold bind at 1. cbn [view offset pos].
    edestruct (IH {| view := (pre ++ frameBytes channels (pos st))
                             ++ replicate (m - 2 * length channels) 0%Z;
                     offset := offset st + 2 * length channels;
                     pos := pos st + 1 |}) as (st' & E & Hv');
      [reflexivity | | | | ].
    + cbn [offset]. rewrite length_app, length_frameBytes. lia.
    + cbn [pos]. lia.
    + lia.
    + exists st'. split; [exact E|]. rewrite Hv'. cbn [pos seq fmap list_fmap concat].
      rewrite <- !(assoc_L (++)). rewrite Nat.add_1_r. do 4 f_equal. lia.
Qed.

(** The whole of [bufferToWave]'s buffer when it returns. *)
Lemma writeWave_view abuffer len :
  let nch := numberOfChannels abuffer in
  let L := len * nch * 2 + 44 in
  ∃ st', writeWave abuffer len L {| view := new_ArrayBuffer L; offset := 0; pos := 0 |}
         = (Ok tt, st')
    ∧ view st' = waveHeader nch (ab_sampleRate abuffer) L
                 ++ framesFrom44 (ab_channels abuffer) len.
Proof.
  cbv zeta.
  destruct (writeWave_header abuffer len) as (st & (Hv & Hp & Ho & Hl) & Hpos & ->).
  set (nch := numberOfChannels abuffer) in *.
  set (L := len * nch * 2 + 44) in *.
  assert (Hk44 : length (waveHeader nch (ab_sampleRate abuffer) L) = 44) by lia.
  assert (Hrest : L - 44 - 2 * nch * (len - 44) = 2 * nch * (len `min` 44))
    by (subst L; nia).
  destruct (while_pos_lt_fill (ab_channels abuffer) len (len - 44) st
              (waveHeader nch (ab_sampleRate abuffer) L) (L - 44))
    as (st' & E & Hv').
  - by rewrite Hv, Hk44.
  - by rewrite Ho, Hk44.
  - by rewrite Hpos.
  - fold (numberOfChannels abuffer). fold nch. subst L. nia.
  - exists st'. split; [exact E|]. rewrite Hv', Hpos.
    unfold framesFrom44. fold (numberOfChannels abuffer). fold nch.
    rewrite Hrest, <- (assoc_L (++)). reflexivity.
Qed.

Lemma length_waveHeader nch rate L : length (waveHeader nch rate L) = 44.
Proof. unfold waveHeader. by rewrite !length_app, !length_le_bytes. Qed.

(** What [bufferToWave] returns, for every buffer and every [len]. *)
Lemma bufferToWave_frames (abuffer : AudioBuffer) (len : nat) :
  ∃ blob, bufferToWave abuffer len = Ok blob
    ∧ blob_type blob = "audio/wav"%string
    ∧ payload (blob_bytes blob) = framesFrom44 (ab_channels abuffer) len.
Proof.
  unfold bufferToWave.
  destruct (writeWave_view abuffer len) as (st & E & Hv). rewrite E.
  eexists. split; [reflexivity|]. split; [reflexivity|].
  cbn [blob_bytes]. unfold payload. rewrite Hv.
  by rewrite drop_app_length' by (by rewrite length_waveHeader).
Qed.

(** [bufferToWave] returns for every buffer and frame count: no store of its
    loops leaves the buffer.  The blob is an [audio/wav] one, and after the
    44 header bytes it holds the frames from 44 on, interleaved channel by
    channel as 16-bit little-endian samples, followed by zeros: the frames
    0 to 43 of the buffer are not in it. *)
Theorem bufferToWave_payload (abuffer : AudioBuffer) (len : nat) :
  ∃ blob, bufferToWave abuffer len = Ok blob
    ∧ blob_type blob = "audio/wav"%string
    ∧ payload (blob_bytes blob) = framesFrom44 (ab_channels abuffer) len.
Proof. apply bufferToWave_frames. Qed.

(** A buffer of at most 44 frames is encoded as silence: every payload byte
    is zero, whatever the samples. *)
Theorem bufferToWave_short_is_silent (abuffer : AudioBuffer) (len : nat) :
  len ≤ 44 →
  ∃ blob, bufferToWave abuffer len = Ok blob
    ∧ payload (blob_bytes blob)
      = replicate (len * numberOfChannels abuffer * 2) 0%Z.
Proof.
  intros Hlen. destruct (bufferToWave_frames abuffer len) as (blob & E & _ & Hp).
  exists blob. split; [exact E|]. rewrite Hp. unfold framesFrom44.
  replace (len - 44) with 0 by lia. cbn [seq fmap list_fmap concat app].
  unfold numberOfChannels. rewrite Nat.min_l by done. f_equal. lia.
Qed.

(** The four frames 1.0, -1.0, 0.0, 0.5 are encoded as 8 zero bytes. *)
Lemma bufferToWave_short_is_silent_witness :
  4 ≤ 44
  ∧ ∃ blob, bufferToWave fourFrames 4 = Ok blob
    ∧ payload (blob_bytes blob)
      = replicate (4 * numberOfChannels fourFrames * 2) 0%Z.
Proof.
  split; [lia | apply (bufferToWave_short_is_silent fourFrames 4); lia].
Defined.

(** A frame from 44 on is in the payload, 44 frame slots before its own. *)
Theorem bufferToWave_frame_slot (abuffer : AudioBuffer) (len k : nat) :
  44 + k < len →
  ∃ blob, bufferToWave abuffer len = Ok blob
    ∧ take (2 * numberOfChannels abuffer)
        (drop (2 * numberOfChannels abuffer * k) (payload (blob_bytes blob)))
      = frameBytes (ab_channels abuffer) (44 + k).
Proof.
  intros Hk. destruct (bufferToWave_frames abuffer len) as (blob & E & _ & Hp).
  exists blob. split; [exact E|]. rewrite Hp. unfold framesFrom44, numberOfChannels.
  set (chs := ab_channels abuffer).
  replace (len - 44) with (k + S (len - 44 - S k)) by lia.
  rewrite seq_app, fmap_app, concat_app. cbn [seq fmap list_fmap concat].
  rewrite <- !(assoc_L (++)).
  rewrite drop_app_length' by (by rewrite length_frames).
  rewrite take_app_length' by (by rewrite length_frameBytes). done.
Qed.

(** Frame 44 of the 45 frames of -0.25 is the first frame of the payload. *)
Lemma bufferToWave_frame_slot_witness :
  44 + 0 < 45
  ∧ ∃ blob, bufferToWave quarterFrames 45 = Ok blob
    ∧ take (2 * numberOfChannels quarterFrames)
        (drop (2 * numberOfChannels quarterFrames * 0) (payload (blob_bytes blob)))
      = frameBytes (ab_channels quarterFrames) (44 + 0).
Proof.
  split; [lia | apply (bufferToWave_frame_slot quarterFrames 45 0); lia].
Defined.

(** The fixed part of the header, for every buffer: the tags [RIFF], [WAVE],
    [fmt ] and [data] at offsets 0, 8, 12 and 36, a format chunk of 16 bytes
    and the format tag 1. *)
Theorem bufferToWave_magic (abuffer : AudioBuffer) (len : nat) :
  ∃ blob, bufferToWave abuffer len = Ok blob
    ∧ take 4 (blob_bytes blob) = [0x52; 0x49; 0x46; 0x46]%Z
    ∧ take 4 (drop 8 (blob_bytes blob)) = [0x57; 0x41; 0x56; 0x45]%Z
    ∧ take 4 (drop 12 (blob_bytes blob)) = [0x66; 0x6d; 0x74; 0x20]%Z
    ∧ DataView_getUint 4 16 (blob_bytes blob) = Some 16%Z
    ∧ DataView_getUint 2 20 (blob_bytes blob) = Some 1%Z
    ∧ take 4 (drop 36 (blob_bytes blob)) = [0x64; 0x61; 0x74; 0x61]%Z.
Proof.
  unfold bufferToWave.
  destruct (writeWave_view abuffer len) as (st & E & Hv). rewrite E.
  eexists. split; [reflexivity|]. cbn [blob_bytes]. rewrite Hv.
  set (h := waveHeader _ _ _).
  destruct (waveHeader_magic (numberOfChannels abuffer) (ab_sampleRate abuffer)
              (len * numberOfChannels abuffer * 2 + 44))
    as (H0 & H8 & H12 & H16 & H20 & H36).
  fold h in H0, H8, H12, H16, H20, H36.
  apply (has_field_app _ _ _ _ (framesFrom44 (ab_channels abuffer) len)) in H0, H8, H12, H16, H20, H36.
  rewrite (getUint_field 16 4 _ _ ltac:(lia) H16), (getUint_field 20 2 _ _ ltac:(lia) H20).
  unfold has_field in H0, H8, H12, H36. rewrite drop_0 in H0.
  rewrite H0, H8, H12, H36. done.
Qed.

End WavePayload.

(** ** Clipping: samples at and beyond the ends of the range *)

Section Clipping.
Import JS Wave.

Lemma SFcompare_refl f : f ≠ S754_nan → SFcompare f f = Some Eq.
Proof.
  destruct f as [s|s| |s m e]; intros H; try congruence; cbn.
  - reflexivity.
  - by destruct s.
  - rewrite Z.compare_refl, Pos.compare_cont_refl. by destruct s.
Qed.

Lemma is_nan_false x : Prim2SF x ≠ S754_nan → is_nan x = false.
Proof.
  intros H. unfold is_nan. rewrite FloatAxioms.eqb_spec. unfold SFeqb.
  by rewrite SFcompare_refl.
Qed.

Lemma Prim2SF_one : Prim2SF 1 = S754_finite false 4503599627370496 (-52).
Proof. reflexivity. Qed.

Lemma Prim2SF_minus_one : Prim2SF (-1) = S754_finite true 4503599627370496 (-52).
Proof. reflexivity. Qed.

(** [Math.min(1, x)] is 1 for every [x] from 1 up, the infinity included. *)
Lemma Math_min_above x : (1 <=? x)%float = true → Math_min 1 x = 1%float.
Proof.
  intros H. rewrite FloatAxioms.leb_spec, Prim2SF_one in H. unfold SFleb in H.
  assert (Hn : Prim2SF x ≠ S754_nan) by (intros E; rewrite E in H; discriminate).
  unfold Math_min. rewrite (is_nan_false x Hn).
  change (is_nan 1) with false. cbn [orb].
  rewrite !FloatAxioms.ltb_spec, Prim2SF_one. unfold SFltb.
  destruct (Prim2SF x) as [s|s| |s m e] eqn:Ex;
    cbv [SFcompare] in H |- *; try discriminate.
  - destruct s; [discriminate | reflexivity].
  - destruct s; [discriminate|].
    destruct (Z.compare_spec (-52) e) as [He|He|He]; try discriminate; [|reflexivity].
    destruct (Pos.compare_cont Eq 4503599627370496 m) eqn:Hc;
      try discriminate; [|reflexivity].
    apply Pos.compare_eq in Hc.
    subst. rewrite <- Prim2SF_one in Ex. apply Prim2SF_inj in Ex. by subst.
Qed.

(** [Math.min(1, x)] is [x] for every [x] from -1 down. *)
Lemma Math_min_below x : (x <=? -1)%float = true → Math_min 1 x = x.
Proof.
  intros H. rewrite FloatAxioms.leb_spec, Prim2SF_minus_one in H. unfold SFleb in H.
  assert (Hn : Prim2SF x ≠ S754_nan) by (intros E; rewrite E in H; discriminate).
  unfold Math_min. rewrite (is_nan_false x Hn).
  change (is_nan 1) with false. cbn [orb].
  rewrite !FloatAxioms.ltb_spec, Prim2SF_one. unfold SFltb.
  destruct (Prim2SF x) as [s|s| |s m e] eqn:Ex;
    cbv [SFcompare] in H |- *; try discriminate.
  - destruct s; [reflexivity | discriminate].
  - destruct s; [reflexivity | discriminate].
Qed.

(** At or below -1 is below -1, or is -1. *)
Lemma SFleb_minus_one f :
  SFleb f (S754_finite true 4503599627370496 (-52)) = true →
  SFltb f (S754_finite true 4503599627370496 (-52)) = true
  ∨ f = S754_finite true 4503599627370496 (-52).
Proof.
  unfold SFleb, SFltb.
  destruct (SFcompare f (S754_finite true 4503599627370496 (-52))) as [[| |]|] eqn:E;
    try discriminate; intros _; [right | by left].
  destruct f as [s|s| |s m e]; cbv [SFcompare] in E.
  - by destruct s.
  - by destruct s.
  - discriminate.
  - destruct s; [|discriminate].
    destruct (Z.compare_spec e (-52)) as [He|He|He]; try discriminate.
    destruct (Pos.compare_cont Eq m 4503599627370496) eqn:Hc; try discriminate.
    apply Pos.compare_eq in Hc. by subst.
Qed.

(** [Math.max(-1, x)] is -1 for every [x] from -1 down. *)
Lemma Math_max_below x : (x <=? -1)%float = true → Math_max (-1) x = (-1)%float.
Proof.
  intros H. rewrite FloatAxioms.leb_spec, Prim2SF_minus_one in H.
  assert (Hn : Prim2SF x ≠ S754_nan) by (intros E; rewrite E in H; discriminate).
  destruct (SFleb_minus_one _ H) as [Hlt|Heq].
  - unfold Math_max. rewrite (is_nan_false x Hn).
    change (is_nan (-1)) with false. cbn [orb].
    by rewrite FloatAxioms.ltb_spec, Prim2SF_minus_one, Hlt.
  - rewrite <- Prim2SF_minus_one in Heq. apply Prim2SF_inj in Heq. subst.
    by vm_compute.
Qed.

(** Clipping.  Every sample from 1 up, the infinity included, is encoded as
    the largest 16-bit sample, 32767, the bytes [FF 7F]; every sample from -1
    down as the smallest, -32768, the bytes [00 80]; and NaN, which is also
    what a read past the end of a channel gives, as 0. *)
Theorem convertSample_clips (x : float) :
  ((1 <=? x)%float = true →
     convertSample x = 32767%Z ∧ sampleBytes x = [0xFF; 0x7F]%Z)
  ∧ ((x <=? -1)%float = true →
     convertSample x = (-32768)%Z ∧ sampleBytes x = [0x00; 0x80]%Z)
  ∧ (is_nan x = true → convertSample x = 0%Z ∧ sampleBytes x = [0; 0]%Z).
Proof.
  split; [|split]; intros H.
  - assert (E : convertSample x = 32767%Z).
    { unfold convertSample, clamp. rewrite (Math_min_above x H). by vm_compute. }
    unfold sampleBytes. rewrite E. by vm_compute.
  - assert (E : convertSample x = (-32768)%Z).
    { unfold convertSample, clamp.
      rewrite (Math_min_below x H), (Math_max_below x H). by vm_compute. }
    unfold sampleBytes. rewrite E. by vm_compute.
  - assert (E : convertSample x = 0%Z).
    { unfold convertSample, clamp, Math_min. rewrite H, orb_true_r. by vm_compute. }
    unfold sampleBytes. rewrite E. by vm_compute.
Qed.

(** The samples 2, -3 and NaN. *)
Lemma convertSample_clips_witness :
  ((1 <=? 2)%float = true ∧ convertSample 2 = 32767%Z)
  ∧ ((-3 <=? -1)%float = true ∧ convertSample (-3) = (-32768)%Z)
  ∧ (is_nan nan = true ∧ convertSample nan = 0%Z).
Proof.
  destruct (convertSample_clips 2) as (H1 & _ & _).
  destruct (convertSample_clips (-3)) as (_ & H2 & _).
  destruct (convertSample_clips nan) as (_ & _ & H3).
  split; [split; [by vm_compute | apply H1; by vm_compute]|].
  split; [split; [by vm_compute | apply H2; by vm_compute]|].
  split; [by vm_compute | apply H3; by vm_compute].
Defined.

End Clipping.

Ltac head_of t :=
  lazymatch t with
  | ?f _ => head_of f
  | _ => t
  end.

Ltac stable_step :=
  lazymatch goal with
  | |- stable _ (bind _ _) => apply stable_bind; [|intros ?]
  | |- stable _ (ret _) => apply stable_ret
  | |- stable _ (throw _) => apply stable_throw
  | |- stable _ (gets _) => apply stable_gets
  | |- stable _ (reads _) => apply stable_reads
  | |- stable _ (when _ _) => apply stable_when
  | |- stable _ (try_ignore _) => apply stable_try_ignore
  | |- stable _ (for_range _ _ _) => apply stable_for_range; intros ?
  | |- stable _ (modify _) =>
      apply stable_modify; intros ? ?; unfold Engine.connected; cbn;
      try case_bool_decide; cbn; solve [intuition auto]
  | |- stable _ (match ?x with _ => _ end) => destruct x
  | |- stable _ (fun _ => _) => intros ? ?; cbn; solve [intuition auto]
  | |- stable _ ?m => let h := head_of m in unfold h
  end.

Ltac stable_auto := repeat (first [ eassumption | stable_step ]).

(** Projections of a state out of the state it was built from. *)
Ltac wsimpl :=
  cbn [Engine.sourceNode Engine.currentBuffer Engine.startTime Engine.pauseTime
       Engine.isPlaying Engine.ctx_suspended Engine.currentTime Engine.delayTime
       Engine.feedbackGain Engine.buffers Engine.sources Engine.connections Engine.called
       Engine.set_sourceNode Engine.set_currentBuffer Engine.set_startTime
       Engine.set_pauseTime Engine.set_isPlaying Engine.set_ctx_suspended
       Engine.set_currentTime Engine.set_delayTime Engine.set_feedbackGain
       Engine.set_buffers Engine.set_sources Engine.set_connections Engine.set_called
       fst snd when].

Ltac wsimpl_in H :=
  cbn [Engine.sourceNode Engine.currentBuffer Engine.startTime Engine.pauseTime
       Engine.isPlaying Engine.ctx_suspended Engine.currentTime Engine.delayTime
       Engine.feedbackGain Engine.buffers Engine.sources Engine.connections Engine.called
       Engine.set_sourceNode Engine.set_currentBuffer Engine.set_startTime
       Engine.set_pauseTime Engine.set_isPlaying Engine.set_ctx_suspended
       Engine.set_currentTime Engine.set_delayTime Engine.set_feedbackGain
       Engine.set_buffers Engine.set_sources Engine.set_connections Engine.set_called
       fst snd when] in H.

(** ** Buffers: cloning and reversing *)

Section BufferFacts.
Import Engine.

Lemma set_buffers_id w : set_buffers (buffers w) w = w.
Proof. by destruct w. Qed.

Lemma set_channels_id b : set_channels (ab_channels b) b = b.
Proof. by destruct b. Qed.

Lemma alter_insert_same {A} (f : A → A) (l : list A) n x :
  n < length l → alter f n (<[n:=x]> l) = <[n:=f x]> l.
Proof.
  intros Hn. apply list_eq. intros i. destruct (decide (i = n)) as [->|Hne].
  - rewrite list_lookup_alter_eq, !list_lookup_insert_eq by (by rewrite ?length_insert). done.
  - by rewrite list_lookup_alter_ne, !list_lookup_insert_ne.
Qed.

Lemma alter_middle {A} (f : A → A) (pre post : list A) x :
  alter f (length pre) (pre ++ x :: post) = pre ++ f x :: post.
Proof.
  replace (length pre) with (length pre + 0) by lia.
  by rewrite alter_app_r.
Qed.

Lemma alter_done_todo {A} (f : A → A) (l : list A) k x :
  l !! k = Some x →
  alter f k ((f <$> take k l) ++ drop k l) = (f <$> take (S k) l) ++ drop (S k) l.
Proof.
  intros Hk. pose proof (lookup_lt_Some _ _ _ Hk) as Hlt.
  rewrite (drop_S _ _ _ Hk), (take_S_r _ _ _ Hk), fmap_app. cbn [fmap list_fmap].
  rewrite <- (assoc_L (++)). cbn [app].
  rewrite <- (alter_middle f (f <$> take k l)).
  f_equal. rewrite length_fmap, length_take. lia.
Qed.

Lemma getBuffer_ok w a b : buffers w !! a = Some b → getBuffer a w = (Ok b, w).
Proof. intros H. unfold getBuffer, reads. by rewrite H. Qed.

Lemma getChannelData_ok w a b i ch :
  buffers w !! a = Some b → ab_channels b !! i = Some ch →
  getChannelData a i w = (Ok ch, w).
Proof.
  intros Ha Hi. unfold getChannelData.
  rewrite (bind_ok _ _ _ _ _ (getBuffer_ok _ _ _ Ha)). by rewrite Hi.
Qed.

Lemma reversed_reversed b : reversed (reversed b) = b.
Proof.
  destruct b as [r n chs]. unfold reversed, set_channels. cbn. f_equal.
  rewrite <- list_fmap_compose. rewrite <- (list_fmap_id chs) at 2.
  apply list_fmap_ext. intros _ ch _. cbn. apply rev_involutive.
Qed.

(** The reversing loop returns, and leaves in the store the buffer with
    every channel reversed. *)
Lemma reverseChannels_spec w a b :
  buffers w !! a = Some b →
  reverseChannels a w = (Ok tt, set_buffers (<[a:=reversed b]> (buffers w)) w).
Proof.
  intros Ha. pose proof (lookup_lt_Some _ _ _ Ha) as Hlt.
  unfold reverseChannels. rewrite (bind_ok _ _ _ _ _ (getBuffer_ok _ _ _ Ha)).
  set (chs := ab_channels b).
  destruct (for_range_ok
    (fun k s => s = set_buffers
       (<[a:=set_channels ((@rev float <$> take k chs) ++ drop k chs) b]> (buffers w)) w)
    (reverseChannel a) (numberOfChannels b) 0 w) as (s' & E & Hs').
  - rewrite take_0, drop_0, fmap_nil, app_nil_l. subst chs.
    by rewrite set_channels_id, list_insert_id, set_buffers_id.
  - intros i t Hi ->. unfold numberOfChannels in Hi. fold chs in Hi.
    destruct (lookup_lt_is_Some_2 chs i) as [c Hc]; [lia|].
    unfold reverseChannel.
    erewrite bind_ok.
    2:{ eapply getChannelData_ok.
        - cbn [buffers set_buffers]. by apply list_lookup_insert_eq.
        - cbn [ab_channels set_channels].
          rewrite lookup_app_r by (rewrite length_fmap, length_take; lia).
          rewrite length_fmap, length_take, lookup_drop.
          replace (i + (i - i `min` length chs)) with i by lia. exact Hc. }
    eexists. split; [reflexivity|]. cbn [buffers set_buffers snd].
    unfold set_buffers. cbn. f_equal.
    rewrite alter_insert_same by done. f_equal.
    unfold set_channels. cbn. f_equal. by apply (alter_done_todo _ _ _ c).
  - rewrite E. f_equal. rewrite Hs'. cbn [Nat.add]. f_equal. f_equal.
    unfold reversed, numberOfChannels. fold chs.
    by rewrite take_ge, drop_ge, app_nil_r by lia.
Qed.

(** The clone of a well-formed buffer has the samples of the buffer. *)
Lemma cloneOf_wellFormed b : wellFormed b → cloneOf b = b.
Proof.
  destruct b as [r n chs]. unfold wellFormed, cloneOf. cbn. intros Hwf. f_equal.
  rewrite <- (list_fmap_id chs) at 2. apply Forall_fmap_ext_1.
  eapply Forall_impl; [exact Hwf|]. intros ch Hch. cbn. unfold overwrite.
  rewrite length_replicate, <- Hch, firstn_all, drop_ge by (by rewrite length_replicate).
  apply app_nil_r.
Qed.

(** [cloneBuffer] returns a new buffer, the copy of the one it is given. *)
Lemma cloneBuffer_spec w a b :
  buffers w !! a = Some b →
  cloneBuffer a w = (Ok (length (buffers w)), set_buffers (buffers w ++ [cloneOf b]) w).
Proof.
  intros Ha. pose proof (lookup_lt_Some _ _ _ Ha) as Hlt.
  unfold cloneBuffer. rewrite (bind_ok _ _ _ _ _ (getBuffer_ok _ _ _ Ha)).
  unfold createBuffer. erewrite bind_ok by reflexivity.
  set (chs := ab_channels b). set (z := replicate (ab_length b) 0%float).
  set (cl := fun ch => overwrite ch z).
  set (new := length (buffers w)).
  destruct (for_range_ok
    (fun k s => s = set_buffers
       (buffers w ++ [mkAudioBuffer (ab_sampleRate b) (ab_length b)
                        ((cl <$> take k chs) ++ replicate (length chs - k) z)]) w)
    (fun i => bind (getChannelData a i) (fun ch => copyToChannel new ch i))
    (numberOfChannels b) 0
    (set_buffers (buffers w ++ [mkAudioBuffer (ab_sampleRate b) (ab_length b)
                                  (replicate (numberOfChannels b) z)]) w))
    as (s' & E & Hs').
  - rewrite take_0, fmap_nil, app_nil_l, Nat.sub_0_r. done.
  - intros i t Hi ->. unfold numberOfChannels in Hi. fold chs in Hi.
    destruct (lookup_lt_is_Some_2 chs i) as [c Hc]; [lia|].
    replace (length chs - i) with (S (length chs - S i)) by lia.
    cbn [replicate].
    assert (Hpre : length (cl <$> take i chs) = i)
      by (rewrite length_fmap, length_take; lia).
    erewrite bind_ok.
    2:{ eapply getChannelData_ok; [|exact Hc].
        cbn [buffers set_buffers]. by rewrite lookup_app_l. }
    unfold copyToChannel. erewrite bind_ok.
    2:{ apply getBuffer_ok. cbn [buffers set_buffers]. apply list_lookup_middle. done. }
    cbn [ab_channels].
    rewrite (list_lookup_middle _ _ _ i) by done.
    eexists. split; [reflexivity|]. cbn [snd].
    unfold updBuffer, modify, set_buffers. cbn. f_equal.
    subst new. rewrite (alter_middle _ (buffers w) []). do 2 f_equal.
    unfold set_channels. cbn. f_equal.
    rewrite <- Hpre at 1. rewrite alter_middle.
    rewrite (take_S_r _ _ _ Hc), fmap_app, <- (assoc_L (++)). done.
  - rewrite (bind_ok _ _ _ _ _ E). unfold ret. f_equal. rewrite Hs'. cbn [Nat.add].
    do 3 f_equal.
    unfold cloneOf, numberOfChannels. fold chs. f_equal.
    rewrite take_ge, Nat.sub_diag by lia. cbn [replicate]. by rewrite app_nil_r.
Qed.

End BufferFacts.

(** ** The buffer a source plays *)

Section SourceFacts.
Import Engine.

(** Cloning the buffer [a] and reversing the clone leaves one new buffer in
    the store: the reversed copy. *)
Lemma reversed_copy_spec {A} w a b (k : nat → M World A) :
  buffers w !! a = Some b →
  bind (cloneBuffer a) (fun rb => bind (reverseChannels rb) (fun _ => k rb)) w
  = k (length (buffers w)) (set_buffers (buffers w ++ [reversed (cloneOf b)]) w).
Proof.
  intros Ha.
  rewrite (bind_ok _ _ _ _ _ (cloneBuffer_spec _ _ _ Ha)).
  erewrite bind_ok.
  2:{ apply reverseChannels_spec. cbn [buffers set_buffers]. apply list_lookup_middle. done. }
  f_equal. unfold set_buffers. cbn. f_equal.
  replace (length (buffers w)) with (length (buffers w) + 0) at 1 by lia.
  by rewrite insert_app_r.
Qed.

Lemma createSource_reversed w a b effects :
  loaded a b w → isReversed effects = true →
  createSource effects w
  = (Ok (length (sources w)),
     set_sources (sources w ++ [newSource (length (buffers w)) effects])
       (set_buffers (buffers w ++ [reversed (cloneOf b)]) w)).
Proof.
  intros [Hc Hb] Hr. unfold createSource.
  rewrite (bind_ok (gets currentBuffer) _ w (Some a) w) by (unfold gets; by rewrite Hc).
  unfold createBufferSource. erewrite bind_ok by reflexivity.
  rewrite Hr. unfold bind at 1.
  rewrite reversed_copy_spec with (b := b) by done.
  unfold updSource, modify, bind, ret, set_sources, set_buffers. cbn. f_equal. f_equal.
  rewrite !(alter_middle _ (sources w) []). done.
Qed.

Lemma createSource_direct w a effects :
  currentBuffer w = Some a → isReversed effects = false →
  createSource effects w
  = (Ok (length (sources w)), set_sources (sources w ++ [newSource a effects]) w).
Proof.
  intros Hc Hr. unfold createSource.
  rewrite (bind_ok (gets currentBuffer) _ w (Some a) w) by (unfold gets; by rewrite Hc).
  unfold createBufferSource. erewrite bind_ok by reflexivity.
  rewrite Hr.
  unfold updSource, modify, bind, ret, set_sources. cbn. f_equal. f_equal.
  rewrite !(alter_middle _ (sources w) []). done.
Qed.

Lemma createSource_stable a b effects : stable (loaded a b) (createSource effects).
Proof.
  intros w Hw. destruct (isReversed effects) eqn:Hr.
  - rewrite (createSource_reversed w a b) by done.
    destruct Hw as [Hc Hb]. split; cbn; [done | by apply lookup_app_l_Some].
  - destruct Hw as [Hc Hb]. rewrite (createSource_direct w a) by done. by split.
Qed.

End SourceFacts.

(** ** What the methods leave alone *)

Section FrameFacts.
Import Engine.

Lemma play_stable_loaded a b effects onEnded :
  stable (loaded a b) (play effects onEnded).
Proof.
  pose proof (createSource_stable a b effects) as Hsrc.
  unfold loaded in *. unfold play. stable_auto.
Qed.

(** The state [exportAudio] leaves: the store has one more buffer when the
    export is reversed, and nothing else has changed. *)
Lemma exportAudio_state w a b effects host :
  loaded a b w →
  snd (exportAudio effects host w)
  = if isReversed effects
    then set_buffers (buffers w ++ [reversed (cloneOf b)]) w
    else w.
Proof.
  intros [Hc Hb]. unfold exportAudio.
  rewrite (bind_ok (gets currentBuffer) _ w (Some a) w) by (unfold gets; by rewrite Hc).
  rewrite (bind_ok _ _ _ _ _ (getBuffer_ok _ _ _ Hb)).
  destruct (isReversed effects).
  - unfold bind at 1. rewrite reversed_copy_spec with (b := b) by done.
    unfold ret. erewrite bind_ok.
    2:{ apply getBuffer_ok. cbn [buffers set_buffers]. apply list_lookup_middle. done. }
    unfold bind, lift, reads.
    destruct (host _) as [r|e]; [|done]. by destruct (Wave.bufferToWave _ _).
  - erewrite bind_ok by reflexivity.
    rewrite (bind_ok _ _ _ _ _ (getBuffer_ok _ _ _ Hb)).
    unfold bind, lift, reads.
    destruct (host _) as [r|e]; [|done]. by destruct (Wave.bufferToWave _ _).
Qed.

Lemma stop_ok w :
  ∃ w', stop w = (Ok tt, w') ∧ pauseTime w' = 0%Q ∧ isPlaying w' = false.
Proof.
  unfold stop, bind, gets, modify, try_ignore.
  destruct (sourceNode w) as [n|]; [|by eexists].
  destruct (source_stop n w) as [[[]|e] w1]; by eexists.
Qed.

Lemma play_unloaded w effects onEnded :
  currentBuffer w = None → isPlaying w = false →
  play effects onEnded w = (Ok tt, w).
Proof.
  intros Hc Hp. unfold play.
  rewrite (bind_ok (gets isPlaying) _ w false w) by (unfold gets; by rewrite Hp).
  cbn [when]. erewrite (bind_ok (ret tt)) by reflexivity.
  by rewrite (bind_ok (gets currentBuffer) _ w None w) by (unfold gets; by rewrite Hc).
Qed.

Lemma exportAudio_unloaded w effects host :
  currentBuffer w = None →
  exportAudio effects host w = (Throw (Error "No audio to export"), w).
Proof.
  intros Hc. unfold exportAudio, bind, gets. by rewrite Hc.
Qed.

(** A method that neither assigns [currentBuffer] nor sets [isPlaying]
    keeps [unloaded_idle]. *)
Lemma keeps_unloaded_idle {A} (m : M World A) :
  (∀ c, stable (fun w => currentBuffer w = Some c) m) →
  stable (fun w => currentBuffer w = None ∧ isPlaying w = false) m →
  stable unloaded_idle m.
Proof.
  intros Hsome Hnone w Hw Hc.
  destruct (currentBuffer w) as [c|] eqn:E.
  - specialize (Hsome c w E). congruence.
  - apply (Hnone w). split; [done | by apply Hw].
Qed.

Lemma reachable_unloaded_idle w : reachable w → unloaded_idle w.
Proof.
  induction 1 as [suspended | c w Hr IH]; [done|].
  destruct c as [decoded | effects onEnded | | | effects | effects host | n | dt];
    cbn [step].
  - destruct decoded as [b|e]; [by intros ?|]. exact IH.
  - intros Hc. destruct (currentBuffer w) as [c|] eqn:E.
    + assert (Hs : stable (fun w => currentBuffer w = Some c) (play effects onEnded))
        by (unfold play; stable_auto).
      specialize (Hs w E). congruence.
    + rewrite play_unloaded; [by apply IH | done | by apply IH].
  - apply keeps_unloaded_idle; [intros c | |done]; unfold pause; stable_auto.
  - apply keeps_unloaded_idle; [intros c | |done]; unfold stop; stable_auto.
  - apply keeps_unloaded_idle; [intros c | |done]; unfold updateEffects; stable_auto.
  - apply keeps_unloaded_idle; [intros c | |done]; unfold exportAudio; stable_auto.
  - apply keeps_unloaded_idle; [intros c | |done]; unfold dispatchEnded; stable_auto.
  - apply keeps_unloaded_idle; [intros c | |done]; unfold advance; stable_auto.
Qed.

End FrameFacts.

(** ** Sessions: play, pause, stop and the [ended] event *)

Section SessionFacts.
Import Engine.
Local Open Scope Q_scope.

(** Calling [play] on a playing engine is calling [stop] and then [play]. *)
Lemma play_while_playing w effects onEnded :
  isPlaying w = true →
  play effects onEnded w = play effects onEnded (snd (stop w)).
Proof.
  intros Hp. destruct (stop_ok w) as (w1 & E & _ & Hp1). rewrite E. cbn [snd].
  unfold play at 1 2.
  rewrite (bind_ok (gets isPlaying) _ w true w) by (unfold gets; by rewrite Hp).
  rewrite (bind_ok (gets isPlaying) _ w1 false w1) by (unfold gets; by rewrite Hp1).
  cbn [when]. rewrite (bind_ok _ _ _ _ _ E).
  by erewrite (bind_ok (ret tt)) by reflexivity.
Qed.

Lemma bind_gets {St A B} (f : St → A) (k : A → M St B) s :
  bind (gets f) k s = k (f s) s.
Proof. reflexivity. Qed.

Lemma bind_modify {St B} (f : St → St) (k : unit → M St B) s :
  bind (modify f) k s = k tt (f s).
Proof. reflexivity. Qed.

Lemma bind_ret {St A B} (a : A) (k : A → M St B) s :
  bind (ret a) k s = k a s.
Proof. reflexivity. Qed.

Lemma set_connections_id w : set_connections (connections w) w = w.
Proof. by destruct w. Qed.

Lemma connected_frame a b w : ∃ cs, connected a b w = set_connections cs w.
Proof.
  unfold connected. case_bool_decide; eexists; [|reflexivity].
  symmetry. apply set_connections_id.
Qed.

Lemma createSource_ok w a b effects :
  loaded a b w →
  ∃ a' bs, createSource effects w
    = (Ok (length (sources w)),
       set_sources (sources w ++ [newSource a' effects]) (set_buffers bs w))
    ∧ bs !! a = Some b.
Proof.
  intros Hw. pose proof Hw as [Hc Hb]. destruct (isReversed effects) eqn:Hr.
  - eexists _, _. split; [by apply (createSource_reversed w a b)|].
    by apply lookup_app_l_Some.
  - exists a, (buffers w). rewrite set_buffers_id. split; [|done].
    by apply createSource_direct.
Qed.

Ltac frame_connections :=
  repeat match goal with
  | |- context [connected ?x ?y ?w] =>
      let cs := fresh "cs" in
      let E := fresh "E" in
      destruct (connected_frame x y w) as [cs E]; rewrite E; clear E
  end.


Lemma bind_reads {St A B} (f : St → result A) (k : A → M St B) s a :
  f s = Ok a → bind (reads f) k s = k a s.
Proof. intros E. unfold bind, reads. by rewrite E. Qed.

Lemma source_start_ok w n nd when_ off :
  sources w !! n = Some nd → sn_started nd = None → Qle_bool 0 off = true →
  source_start n when_ off w
  = (Ok tt, set_sources (alter (set_sn_started (when_, off)) n (sources w)) w).
Proof.
  intros Hn Hs Hoff. unfold source_start, getSource.
  erewrite bind_reads by (by rewrite Hn). by rewrite Hs, Hoff.
Qed.

Lemma source_stop_ok w n nd :
  sources w !! n = Some nd → is_Some (sn_started nd) →
  source_stop n w = (Ok tt, set_sources (alter set_sn_stopped n (sources w)) w).
Proof.
  intros Hn [x Hs]. unfold source_stop, getSource.
  erewrite bind_reads by (by rewrite Hn). by rewrite Hs.
Qed.

Lemma play_idle_spec w a b effects onEnded :
  loaded a b w → isPlaying w = false → Qle_bool 0 (pauseTime w) = true →
  ∃ w' nd,
    play effects onEnded w = (Ok tt, w')
    ∧ isPlaying w' = true
    ∧ startTime w' = currentTime w - pauseTime w
    ∧ pauseTime w' = pauseTime w
    ∧ currentTime w' = currentTime w
    ∧ called w' = called w
    ∧ loaded a b w'
    ∧ sourceNode w' = Some (length (sources w))
    ∧ sources w' = sources w ++ [nd]
    ∧ sn_started nd = Some (0, pauseTime w)
    ∧ sn_stopped nd = false
    ∧ sn_ended nd = false
    ∧ sn_onended nd = Some onEnded.
Proof.
  intros Hw Hp Hoff.
  assert (Hsusp : ∃ s, (when (ctx_suspended w) (modify (set_ctx_suspended false))) w
                   = (Ok tt, set_ctx_suspended s w)).
  { destruct (ctx_suspended w) eqn:E; cbn [when].
    - by exists false.
    - exists false. unfold ret. f_equal. destruct w; cbn in *. by subst. }
  destruct Hsusp as [s Hs].
  destruct (createSource_ok (set_ctx_suspended s w) a b effects) as (a' & bs & E & Hbs);
    [exact Hw|].
  destruct Hw as [Hc Hb].
  unfold play. rewrite bind_gets, Hp. cbn [when]. rewrite bind_ret, bind_gets, Hc.
  rewrite bind_gets, (bind_ok _ _ _ _ _ Hs), (bind_ok _ _ _ _ _ E).
  clear Hs E.
  destruct w as [sn cb st pt ip su ct dt fg bfs srcs cns cl]. wsimpl. wsimpl_in Hoff.
  unfold connect. rewrite !bind_modify.
  frame_connections. wsimpl. rewrite bind_gets. wsimpl.
  erewrite bind_ok.
  2:{ eapply source_start_ok.
      - wsimpl. by rewrite (list_lookup_middle srcs []).
      - reflexivity.
      - exact Hoff. }
  unfold updSource. rewrite !bind_modify. wsimpl.
  eexists _, _. split; [reflexivity|]. unfold loaded. wsimpl.
  rewrite !(alter_middle _ srcs []).
  cbn in Hc, Hb. by repeat split.
Qed.

Lemma pause_playing_spec w n nd :
  sourceNode w = Some n → sources w !! n = Some nd → is_Some (sn_started nd) →
  isPlaying w = true →
  pause w
  = (Ok tt,
     set_isPlaying false
       (set_pauseTime (currentTime w - startTime w)
          (set_sources (alter set_sn_stopped n (sources w)) w))).
Proof.
  intros Hsn Hn Hst Hp. unfold pause.
  rewrite !bind_gets, Hsn, Hp. cbn [when].
  rewrite (bind_ok _ _ _ _ _ (source_stop_ok _ _ _ Hn Hst)).
  by rewrite !bind_modify.
Qed.

Lemma advance_spec w dt :
  0 <= dt → advance dt w = (Ok tt, set_currentTime (currentTime w + dt) w).
Proof.
  intros H. unfold advance. by rewrite (proj2 (Qle_bool_iff 0 dt) H).
Qed.

(** One round of playing: [play] on an idle engine at offset [p], [t]
    seconds of clock, [pause].  The offset grows by exactly [t]. *)
Lemma play_pause_round w a b effects onEnded t :
  loaded a b w → isPlaying w = false → 0 <= pauseTime w → 0 <= t →
  let w' := run [CPlay effects onEnded; HAdvance t; CPause] w in
  loaded a b w' ∧ isPlaying w' = false
  ∧ pauseTime w' == pauseTime w + t
  ∧ currentTime w' = currentTime w + t
  ∧ called w' = called w.
Proof.
  intros Hw Hp Hoff Ht. cbv zeta. cbn [run foldl step].
  destruct (play_idle_spec w a b effects onEnded Hw Hp (proj2 (Qle_bool_iff _ _) Hoff))
    as (w1 & nd & E1 & Hp1 & Hst1 & Hpt1 & Hct1 & Hcl1 & Hw1 & Hsn1 & Hnd & Hs1 & _).
  rewrite E1. cbn [snd]. rewrite (advance_spec _ _ Ht). cbn [snd].
  erewrite pause_playing_spec;
    [| exact Hsn1
     | cbn [sources set_currentTime]; rewrite Hnd; by apply list_lookup_middle
     | by rewrite Hs1 | exact Hp1].
  destruct Hw1 as [Hc1 Hb1]. unfold loaded. cbn.
  rewrite Hc1, Hb1, Hst1, Hct1, Hcl1. repeat split; try done.
  ring.
Qed.

Lemma stop_session_spec w n nd :
  sourceNode w = Some n → sources w !! n = Some nd → is_Some (sn_started nd) →
  stop w
  = (Ok tt,
     set_isPlaying false
       (set_pauseTime 0 (set_sources (alter set_sn_stopped n (sources w)) w))).
Proof.
  intros Hsn Hn Hst. unfold stop. rewrite bind_gets, Hsn.
  erewrite bind_ok.
  2:{ unfold try_ignore. by rewrite (source_stop_ok _ _ _ Hn Hst). }
  by rewrite !bind_modify.
Qed.

Lemma dispatchEnded_spec w n nd onEnded :
  sources w !! n = Some nd → is_Some (sn_started nd) → sn_ended nd = false →
  sn_onended nd = Some onEnded →
  dispatchEnded n w
  = (Ok tt,
     set_called (onEnded :: called w)
       (set_pauseTime 0
          (set_isPlaying false
             (set_sources (alter set_sn_ended n (sources w)) w)))).
Proof.
  intros Hn Hst He Hh. unfold dispatchEnded, getSource.
  erewrite bind_reads by (by rewrite Hn).
  rewrite bool_decide_eq_true_2, He, Hh by done. cbn [andb negb when].
  unfold updSource, onended_handler. by rewrite !bind_modify.
Qed.

(** The stale completion handler, for every session: once a session's
    source has been halted by [pause], the host's [ended] event for it runs
    the handler that [play] registered: the caller's [onEnded] is called and
    the offset that [pause] stored is reset to 0. *)
Lemma ended_after_pause_resets_offset w a b effects onEnded t :
  loaded a b w → isPlaying w = false → 0 <= pauseTime w → 0 <= t →
  let paused := run [CPlay effects onEnded; HAdvance t; CPause] w in
  let w' := step (HEnded (length (sources w))) paused in
  pauseTime paused == pauseTime w + t
  ∧ pauseTime w' = 0
  ∧ called w' = onEnded :: called w
  ∧ isPlaying w' = false.
Proof.
  intros Hw Hp Hoff Ht. cbv zeta.
  split; [by apply (play_pause_round w a b effects onEnded t)|].
  cbn [run foldl step].
  destruct (play_idle_spec w a b effects onEnded Hw Hp (proj2 (Qle_bool_iff _ _) Hoff))
    as (w1 & nd & E1 & Hp1 & Hst1 & Hpt1 & Hct1 & Hcl1 & Hw1 & Hsn1 & Hnd & Hs1 & Hh1 & He1 & Ho1).
  rewrite E1. cbn [snd]. rewrite (advance_spec _ _ Ht). cbn [snd].
  erewrite pause_playing_spec;
    [| exact Hsn1
     | cbn [sources set_currentTime]; rewrite Hnd; by apply list_lookup_middle
     | by rewrite Hs1 | exact Hp1].
  cbn [snd].
  erewrite (dispatchEnded_spec _ _ (set_sn_stopped nd) onEnded).
  - cbn. by rewrite Hcl1.
  - cbn. rewrite Hnd, (alter_middle _ (sources w) []). by apply list_lookup_middle.
  - cbn. by rewrite Hs1.
  - exact He1.
  - exact Ho1.
Qed.

(** The same for a session halted because [play] was called again: the
    first session's [onEnded] is called, and the engine takes itself for
    idle although the second session's source is sounding. *)
Lemma ended_after_restart_calls_first_handler w a b fx1 cb1 fx2 cb2 t :
  loaded a b w → isPlaying w = false → 0 <= pauseTime w → 0 <= t →
  let w' := run [CPlay fx1 cb1; HAdvance t; CPlay fx2 cb2; HEnded (length (sources w))] w in
  called w' = cb1 :: called w
  ∧ isPlaying w' = false
  ∧ ∃ nd2, sources w' !! S (length (sources w)) = Some nd2 ∧ sounding nd2 = true.
Proof.
  intros Hw Hp Hoff Ht. cbv zeta. cbn [run foldl step].
  destruct (play_idle_spec w a b fx1 cb1 Hw Hp (proj2 (Qle_bool_iff _ _) Hoff))
    as (w1 & nd & E1 & Hp1 & Hst1 & Hpt1 & Hct1 & Hcl1 & Hw1 & Hsn1 & Hnd & Hs1 & Hh1 & He1 & Ho1).
  rewrite E1. cbn [snd]. rewrite (advance_spec _ _ Ht). cbn [snd].
  set (w2 := set_currentTime (currentTime w1 + t) w1).
  assert (Hn2 : sources w2 !! length (sources w) = Some nd)
    by (subst w2; cbn; rewrite Hnd; by apply list_lookup_middle).
  rewrite (play_while_playing w2) by done.
  rewrite (stop_session_spec w2 _ nd) by (done || by rewrite Hs1). cbn [snd].
  set (w3 := set_isPlaying false _).
  destruct (play_idle_spec w3 a b fx2 cb2)
    as (w4 & nd2 & E4 & Hp4 & _ & _ & _ & Hcl4 & _ & _ & Hnd4 & Hs4 & Hh4 & He4 & _);
    [exact Hw1 | done | done |].
  rewrite E4. cbn [snd].
  assert (Hsrc3 : sources w3 = sources w ++ [set_sn_stopped nd]).
  { subst w3 w2. cbn. by rewrite Hnd, (alter_middle _ (sources w) []). }
  rewrite Hsrc3 in Hnd4.
  erewrite (dispatchEnded_spec _ _ (set_sn_stopped nd) cb1).
  - cbn. rewrite Hcl4. subst w3 w2. cbn. rewrite Hcl1. split; [done|]. split; [done|].
    exists nd2. split.
    + rewrite Hnd4, list_lookup_alter_ne by lia.
      apply list_lookup_middle. rewrite length_app. cbn. lia.
    + unfold sounding. rewrite Hs4, Hh4, He4. done.
  - rewrite Hnd4, <- (assoc_L (++)). cbn [app]. by apply list_lookup_middle.
  - cbn. by rewrite Hs1.
  - exact He1.
  - exact Ho1.
Qed.

(** [play] on a playing engine does what [stop] followed by [play] does. *)
Theorem restart_is_stop_then_play w effects onEnded :
  isPlaying w = true →
  run [CPlay effects onEnded] w = run [CStop; CPlay effects onEnded] w
  ∧ fst (play effects onEnded w) = fst (play effects onEnded (snd (stop w))).
Proof.
  intros Hp. cbn [run foldl step]. by rewrite (play_while_playing w).
Qed.

End SessionFacts.

(** ** The engine *)

Section EngineClaims.
Import Engine.

(** C3.  [play] twice in succession, then the host's [ended] event for the
    source that the second [play] halted: the event runs the handler that
    the first [play] registered, so the first session's completion callback
    (1) fires, as a result of an explicit halt; the engine then takes itself
    for idle while the second session's source (node 1) is still sounding,
    and a further [play] leaves two sources sounding at once.  The callback
    fires after a plain [stop] as well. *)
Theorem first_callback_fires_after_restart :
  let w := run playedTwice (constructor false) in
  called (run stoppedOnce (constructor false)) = [1]
  ∧ (sn_stopped <$> sources w !! 0) = Some true
  ∧ called w = [1]
  ∧ isPlaying w = false
  ∧ soundingNodes w = [1]
  ∧ soundingNodes (step (CPlay plain 3) w) = [1; 2].
Proof. vm_compute. done. Qed.

(** C4.  A session paused after 2 seconds, resumed, and paused again after
    1 more second.  The host dispatches [ended] for the source that [pause]
    halted; the handler [play] registered resets [pauseTime], so the session
    resumes at offset 0 and the cumulative offset ends as 1, not 2 + 1.  With
    the same calls and no [ended] event the offset is 3. *)
Theorem pause_offset_lost_on_ended :
  (sn_stopped <$> sources (run (take 4 pausedTwice) (constructor false)) !! 0) = Some true
  ∧ pauseTime (run (take 4 pausedTwice) (constructor false)) == 2
  ∧ pauseTime (run (take 5 pausedTwice) (constructor false)) == 0
  ∧ pauseTime (run pausedTwice (constructor false)) == 1
  ∧ pauseTime (run pausedTwiceUndisturbed (constructor false)) == 3.
Proof. vm_compute. done. Qed.

(** C8.  From any state, [stop] returns without an exception and leaves
    [pauseTime] at 0 and [isPlaying] false; so does a second [stop] right
    after it. *)
Theorem stop_twice (w : World) :
  ∃ w1 w2,
    stop w = (Ok tt, w1) ∧ pauseTime w1 = 0%Q ∧ isPlaying w1 = false
    ∧ stop w1 = (Ok tt, w2) ∧ pauseTime w2 = 0%Q ∧ isPlaying w2 = false.
Proof.
  destruct (stop_ok w) as (w1 & E1 & P1 & I1).
  destruct (stop_ok w1) as (w2 & E2 & P2 & I2).
  by exists w1, w2.
Qed.

(** C9.  In every state the engine can reach with no buffer loaded, [play]
    returns and [exportAudio] throws [Error("No audio to export")], and each
    leaves the state as it was. *)
Theorem unloaded_play_and_export (w : World) effects onEnded host :
  reachable w → currentBuffer w = None →
  play effects onEnded w = (Ok tt, w)
  ∧ exportAudio effects host w = (Throw (Error "No audio to export"), w).
Proof.
  intros Hr Hc. split.
  - apply play_unloaded; [done|]. by apply reachable_unloaded_idle.
  - by apply exportAudio_unloaded.
Qed.

(** A new engine: [play] and [exportAudio] before any file is loaded. *)
Lemma unloaded_play_and_export_witness :
  reachable (constructor true) ∧ currentBuffer (constructor true) = None
  ∧ play echoReversed 1 (constructor true) = (Ok tt, constructor true)
  ∧ exportAudio echoReversed silentRenderer (constructor true)
    = (Throw (Error "No audio to export"), constructor true).
Proof.
  split; [constructor|]. split; [reflexivity|].
  apply (unloaded_play_and_export (constructor true) echoReversed 1 silentRenderer);
    [constructor | reflexivity].
Defined.

(** C6.  Reversing the channels of a buffer in place twice returns both
    times, the first time leaving every channel reversed and the second
    time leaving the state exactly as it was before: every channel has its
    original samples again. *)
Theorem reverse_twice (w : World) (a : nat) (b : AudioBuffer) :
  buffers w !! a = Some b →
  ∃ w1, reverseChannels a w = (Ok tt, w1)
    ∧ buffers w1 !! a = Some (reversed b)
    ∧ reverseChannels a w1 = (Ok tt, w)
    ∧ ∀ i, ab_channels (reversed (reversed b)) !! i = ab_channels b !! i.
Proof.
  intros Ha. pose proof (lookup_lt_Some _ _ _ Ha) as Hlt.
  eexists. split; [by apply reverseChannels_spec|].
  assert (H1 : buffers (set_buffers (<[a:=reversed b]> (buffers w)) w) !! a
               = Some (reversed b)) by (by apply list_lookup_insert_eq).
  split; [exact H1|]. split; [|by rewrite reversed_reversed].
  rewrite (reverseChannels_spec _ _ _ H1). f_equal.
  cbn [buffers set_buffers]. unfold set_buffers. cbn.
  rewrite list_insert_insert_eq, reversed_reversed, list_insert_id by done.
  by destruct w.
Qed.

(** Reversing twice the buffer of an engine that has loaded the 3 stereo
    frames. *)
Lemma reverse_twice_witness :
  buffers (step (CLoadFile (Ok stereoFrames)) (constructor true)) !! 0 = Some stereoFrames
  ∧ ∃ w1, reverseChannels 0 (step (CLoadFile (Ok stereoFrames)) (constructor true))
          = (Ok tt, w1)
    ∧ buffers w1 !! 0 = Some (reversed stereoFrames)
    ∧ reverseChannels 0 w1
      = (Ok tt, step (CLoadFile (Ok stereoFrames)) (constructor true))
    ∧ ∀ i, ab_channels (reversed (reversed stereoFrames)) !! i
           = ab_channels stereoFrames !! i.
Proof.
  split; [reflexivity|].
  apply (reverse_twice (step (CLoadFile (Ok stereoFrames)) (constructor true)) 0 stereoFrames).
  reflexivity.
Defined.

(** C7.  With the reversed flag set and a buffer loaded, [createSource]
    gives the new source a new buffer, the reversed copy of the current
    one, and the current buffer keeps its samples; it keeps them through
    the whole of [play] and of [exportAudio] as well, whatever the other
    parameters. *)
Theorem reversal_works_on_a_copy (w : World) (a : nat) (b : AudioBuffer)
    effects onEnded host :
  loaded a b w → isReversed effects = true →
  (∃ source a' w',
      createSource effects w = (Ok source, w')
      ∧ (sn_buffer <$> sources w' !! source) = Some (Some a')
      ∧ a' ≠ a
      ∧ buffers w' !! a' = Some (reversed (cloneOf b))
      ∧ buffers w' !! a = Some b)
  ∧ buffers (snd (play effects onEnded w)) !! a = Some b
  ∧ buffers (snd (exportAudio effects host w)) !! a = Some b.
Proof.
  intros Hw Hr. pose proof Hw as [Hc Hb].
  pose proof (lookup_lt_Some _ _ _ Hb) as Hlt.
  split; [|split].
  - exists (length (sources w)), (length (buffers w)). eexists.
    split; [by apply (createSource_reversed w a b)|].
    cbn [sources buffers set_sources set_buffers].
    rewrite (list_lookup_middle (sources w) []), (list_lookup_middle (buffers w) []) by done.
    cbn. repeat split; [lia | by apply lookup_app_l_Some].
  - by apply (play_stable_loaded a b effects onEnded w).
  - rewrite (exportAudio_state w a b) by done. rewrite Hr.
    cbn [buffers set_buffers]. by apply lookup_app_l_Some.
Qed.

(** Reversed playback and export of the 3 stereo frames. *)
Lemma reversal_works_on_a_copy_witness :
  let w := step (CLoadFile (Ok stereoFrames)) (constructor true) in
  loaded 0 stereoFrames w ∧ isReversed echoReversed = true
  ∧ (∃ source a' w',
        createSource echoReversed w = (Ok source, w')
        ∧ (sn_buffer <$> sources w' !! source) = Some (Some a')
        ∧ a' ≠ 0
        ∧ buffers w' !! a' = Some (reversed (cloneOf stereoFrames))
        ∧ buffers w' !! 0 = Some stereoFrames)
  ∧ buffers (snd (play echoReversed 1 w)) !! 0 = Some stereoFrames
  ∧ buffers (snd (exportAudio echoReversed silentRenderer w)) !! 0 = Some stereoFrames.
Proof.
  cbv zeta. split; [by split|]. split; [reflexivity|].
  apply (reversal_works_on_a_copy
           (step (CLoadFile (Ok stereoFrames)) (constructor true)) 0 stereoFrames
           echoReversed 1 silentRenderer); [by split | reflexivity].
Defined.

(** A restart 1 second into a session on the 5-second buffer. *)
Lemma restart_is_stop_then_play_witness :
  let w := run [CLoadFile (Ok fiveSeconds); CPlay plain 1; HAdvance 1] (constructor false) in
  isPlaying w = true
  ∧ run [CPlay echo 2] w = run [CStop; CPlay echo 2] w
  ∧ fst (play echo 2 w) = fst (play echo 2 (snd (stop w))).
Proof.
  cbv zeta. split; [by vm_compute|].
  apply (restart_is_stop_then_play
           (run [CLoadFile (Ok fiveSeconds); CPlay plain 1; HAdvance 1] (constructor false))
           echo 2).
  by vm_compute.
Defined.

End EngineClaims.

(** ** The size of an export *)

Section ExportClaims.
Import Engine.

(** The context of an export has the channels and the sample rate of the
    current buffer, and [exportFrames] frames. *)
Lemma offlineCtxFor_frames b effects :
  offlineCtxFor b effects
  = mkOffline (numberOfChannels b)
      (exportFrames (Z.of_nat (ab_length b)) (ab_sampleRate b)
         (if Qlt_le_dec 0 (echoFeedback effects) then 3 else 0)%float)
      (ab_sampleRate b).
Proof. reflexivity. Qed.

Lemma offlineCtxFor_tail b effects len rate :
  Z.of_nat (ab_length b) = len → ab_sampleRate b = rate → (0 < echoFeedback effects)%Q →
  offlineCtxFor b effects = mkOffline (numberOfChannels b) (exportFrames len rate 3) rate.
Proof.
  intros <- <- Hfb. rewrite offlineCtxFor_frames.
  destruct (Qlt_le_dec 0 (echoFeedback effects)) as [_|Hle]; [done|].
  exfalso. by apply (Qlt_not_le _ _ Hfb).
Qed.

Lemma offlineCtxFor_no_tail b effects len rate :
  Z.of_nat (ab_length b) = len → ab_sampleRate b = rate → (echoFeedback effects <= 0)%Q →
  offlineCtxFor b effects = mkOffline (numberOfChannels b) (exportFrames len rate 0) rate.
Proof.
  intros <- <- Hfb. rewrite offlineCtxFor_frames.
  destruct (Qlt_le_dec 0 (echoFeedback effects)) as [Hlt|_]; [|done].
  exfalso. by apply (Qlt_not_le _ _ Hlt).
Qed.

(** The scenario of a 2-second source at a common rate: 5 seconds of
    frames with a tail, 2 seconds without. *)
Lemma exportFrames_two_seconds rate :
  rate ∈ commonRates →
  exportFrames (2 * rate) rate 3 = (5 * rate)%Z
  ∧ exportFrames (2 * rate) rate 0 = (2 * rate)%Z.
Proof.
  unfold commonRates. rewrite !elem_of_cons, elem_of_nil.
  intros H. repeat (destruct H as [->|H]; [by vm_compute|]). done.
Qed.

(** C5.  [exportAudio] sizes its offline context as
    [duration * sampleRate], where [duration] is the duration of the
    current buffer, plus 3 when the echo feedback is above 0; the product
    is a Number, and the context takes its integer part.  For a 2-second
    source at a common sample rate that is 5 seconds of frames with a
    feedback above 0 and 2 seconds with none.  But for 15 frames at
    44100 Hz and no feedback the product is below 15 and the context has
    14 frames: the export, 44 + 14 * 2 bytes, is one frame short of the
    source.  So are the exports of 176401 frames with no feedback and of
    88201 frames with feedback, at 44100 Hz. *)
Theorem export_one_frame_short :
  (ab_length fifteenFrames = 15
   ∧ offlineCtxFor fifteenFrames plain = mkOffline 1 14 44100
   ∧ (duration fifteenFrames * 44100 <? 15)%float = true
   ∧ ∃ blob,
       fst (exportAudio plain silentRenderer
              (step (CLoadFile (Ok fifteenFrames)) (constructor false))) = Ok blob
       ∧ length (Wave.blob_bytes blob) = 44 + 14 * 2)
  ∧ (∀ b effects,
       ab_sampleRate b = 44100%Z → Z.of_nat (ab_length b) = 176401%Z →
       (echoFeedback effects <= 0)%Q →
       oc_length (offlineCtxFor b effects) = 176400%Z)
  ∧ (∀ b effects,
       ab_sampleRate b = 44100%Z → Z.of_nat (ab_length b) = 88201%Z →
       (0 < echoFeedback effects)%Q →
       oc_length (offlineCtxFor b effects) = (88201 + 3 * 44100 - 1)%Z)
  ∧ (∀ rate b effects,
       rate ∈ commonRates →
       ab_sampleRate b = rate → Z.of_nat (ab_length b) = (2 * rate)%Z →
       ((0 < echoFeedback effects)%Q →
          offlineCtxFor b effects = mkOffline (numberOfChannels b) (5 * rate) rate
          ∧ (oc_duration (offlineCtxFor b effects) == 5)%Q)
       ∧ ((echoFeedback effects <= 0)%Q →
          offlineCtxFor b effects = mkOffline (numberOfChannels b) (2 * rate) rate
          ∧ (oc_duration (offlineCtxFor b effects) == 2)%Q)).
Proof.
  split; [|split; [|split]].
  - split; [reflexivity|]. split; [by vm_compute|]. split; [by vm_compute|].
    eexists. split; [vm_compute; reflexivity|]. by vm_compute.
  - intros b effects Hr Hl Hfb.
    rewrite (offlineCtxFor_no_tail b effects _ _ Hl Hr Hfb). by vm_compute.
  - intros b effects Hr Hl Hfb.
    rewrite (offlineCtxFor_tail b effects _ _ Hl Hr Hfb). by vm_compute.
  - intros rate b effects Hrate Hr Hl.
    destruct (exportFrames_two_seconds rate Hrate) as [H5 H2].
    assert (Hpos : (0 < rate)%Z).
    { revert Hrate. unfold commonRates. rewrite !elem_of_cons, elem_of_nil.
      intros H. repeat (destruct H as [->|H]; [done|]). done. }
    split; intros Hfb.
    + rewrite (offlineCtxFor_tail b effects _ _ Hl Hr Hfb), H5. split; [done|].
      unfold oc_duration. cbn [oc_length oc_sampleRate].
      rewrite inject_Z_mult. field.
      intros H0. unfold Qeq in H0. cbn in H0. lia.
    + rewrite (offlineCtxFor_no_tail b effects _ _ Hl Hr Hfb), H2. split; [done|].
      unfold oc_duration. cbn [oc_length oc_sampleRate].
      rewrite inject_Z_mult. field.
      intros H0. unfold Qeq in H0. cbn in H0. lia.
Qed.

End ExportClaims.

(** ** What a session is made of *)

Section PlayFacts.
Import Engine.
Local Open Scope Q_scope.

Lemma connected_addEdge a b w :
  connected a b w = set_connections (addEdge (a, b) (connections w)) w.
Proof.
  unfold connected, addEdge. case_bool_decide; [|done].
  symmetry. apply set_connections_id.
Qed.

Lemma resume_ok w :
  when (ctx_suspended w) (modify (set_ctx_suspended false)) w
  = (Ok tt, set_ctx_suspended false w).
Proof. destruct w as [sn cb st pt ip [] ct dt fg bfs srcs cns cl]; reflexivity. Qed.

(** [play] on an idle engine with a buffer, step by step: the state it
    leaves, when the source plays the buffer [a'] that [createSource] gave
    it and the buffers are [bs]. *)
Lemma play_from_source w a effects onEnded a' bs :
  currentBuffer w = Some a → isPlaying w = false → 0 <= pauseTime w →
  createSource effects (set_ctx_suspended false w)
  = (Ok (length (sources w)),
     set_sources (sources w ++ [newSource a' effects])
       (set_buffers bs (set_ctx_suspended false w))) →
  play effects onEnded w = (Ok tt, sessionStarted w a' bs effects onEnded).
Proof.
  intros Hc Hp Hoff E. apply Qle_bool_iff in Hoff.
  unfold play. rewrite bind_gets, Hp. cbn [when].
  rewrite bind_ret, bind_gets, Hc, bind_gets.
  rewrite (bind_ok _ _ _ _ _ (resume_ok w)), (bind_ok _ _ _ _ _ E). clear E.
  destruct w as [sn cb st pt ip su ct dt fg bfs srcs cns cl]. wsimpl.
  cbn [pauseTime] in Hoff.
  unfold connect. rewrite !bind_modify, !connected_addEdge. wsimpl.
  rewrite bind_gets. wsimpl.
  erewrite bind_ok.
  2:{ eapply source_start_ok.
      - wsimpl. by rewrite (list_lookup_middle srcs []).
      - reflexivity.
      - exact Hoff. }
  unfold updSource. rewrite !bind_modify.
  cbv [sourceNode currentBuffer startTime pauseTime isPlaying ctx_suspended currentTime
       delayTime feedbackGain buffers sources connections called
       set_sourceNode set_currentBuffer set_startTime set_pauseTime set_isPlaying
       set_ctx_suspended set_currentTime set_delayTime set_feedbackGain set_buffers
       set_sources set_connections set_called sessionStarted modify].
  rewrite !(alter_middle _ srcs []). reflexivity.
Qed.

(** [play] on an idle engine with a buffer: what it returns and the whole
    state it leaves. *)
Lemma play_idle_state w a b effects onEnded :
  loaded a b w → isPlaying w = false → 0 <= pauseTime w →
  play effects onEnded w
  = (Ok tt,
     if isReversed effects
     then sessionStarted w (length (buffers w)) (buffers w ++ [reversed (cloneOf b)])
            effects onEnded
     else sessionStarted w a (buffers w) effects onEnded).
Proof.
  intros Hw Hp Hoff. pose proof Hw as [Hc Hb].
  destruct (isReversed effects) eqn:Hr.
  - apply (play_from_source w a); try done.
    by rewrite (createSource_reversed _ a b).
  - apply (play_from_source w a); try done.
    rewrite (createSource_direct _ a) by done.
    by destruct w.
Qed.

End PlayFacts.

(** ** What holds in every state of the engine *)

Section Invariants.
Import Engine.
Local Open Scope Q_scope.

Lemma buffer_named_updBuffer a f : stable buffer_named (updBuffer a f).
Proof.
  intros w H c Hc. specialize (H c Hc). unfold updBuffer, modify. wsimpl.
  apply lookup_lt_is_Some in H. apply lookup_lt_is_Some. by rewrite length_alter.
Qed.

Lemma buffer_named_allocBuffer b : stable buffer_named (allocBuffer b).
Proof.
  intros w H c Hc. specialize (H c Hc). unfold allocBuffer. wsimpl.
  apply lookup_lt_is_Some in H. apply lookup_lt_is_Some. rewrite length_app. lia.
Qed.

Lemma source_started_updSource n f :
  (∀ nd, is_Some (sn_started nd) → is_Some (sn_started (f nd))) →
  stable source_started (updSource n f).
Proof.
  intros Hf w H k Hk. destruct (H k Hk) as (nd & Hnd & Hst).
  unfold updSource, modify. wsimpl.
  destruct (decide (k = n)) as [->|Hne].
  - exists (f nd). rewrite list_lookup_alter_eq, Hnd. split; [done | by apply Hf].
  - exists nd. by rewrite list_lookup_alter_ne.
Qed.

Ltac inv_leaf :=
  lazymatch goal with
  | |- stable buffer_named (updBuffer _ _) => apply buffer_named_updBuffer
  | |- stable buffer_named (allocBuffer _) => apply buffer_named_allocBuffer
  | |- stable source_started (updSource _ _) =>
      apply source_started_updSource; intros [] ?; assumption
  | |- stable times_ordered (modify _) =>
      apply stable_modify; intros ? [? ?]; unfold times_ordered; wsimpl; split; lra
  | |- stable playing_has_source (modify _) =>
      apply stable_modify; intros ? ?; unfold playing_has_source in *; wsimpl;
      solve [assumption | intros; discriminate]
  end.

Ltac inv_auto := repeat (first [ eassumption | inv_leaf | stable_step ]).

Lemma stable_consistent {A} (m : M World A) :
  stable buffer_named m → stable source_started m → stable times_ordered m →
  stable playing_has_source m → stable consistent m.
Proof.
  intros H1 H2 H3 H4 w (P1 & P2 & P3 & P4).
  split; [by apply H1|]. split; [by apply H2|]. split; [by apply H3 | by apply H4].
Qed.

Lemma pause_consistent : stable consistent pause.
Proof. apply stable_consistent; unfold pause; inv_auto. Qed.

Lemma stop_consistent : stable consistent stop.
Proof. apply stable_consistent; unfold stop; inv_auto. Qed.

Lemma updateEffects_consistent effects : stable consistent (updateEffects effects).
Proof. apply stable_consistent; unfold updateEffects; inv_auto. Qed.

Lemma exportAudio_consistent effects host : stable consistent (exportAudio effects host).
Proof. apply stable_consistent; unfold exportAudio; inv_auto. Qed.

Lemma dispatchEnded_consistent n : stable consistent (dispatchEnded n).
Proof. apply stable_consistent; unfold dispatchEnded; inv_auto. Qed.

Lemma loadFile_state decoded w :
  loadFile decoded w
  = match decoded with
    | Ok b => (Ok (length (buffers w)),
               set_currentBuffer (Some (length (buffers w)))
                 (set_buffers (buffers w ++ [b]) w))
    | Throw e => (Throw e, w)
    end.
Proof. by destruct decoded. Qed.

Lemma loadFile_consistent decoded : stable consistent (loadFile decoded).
Proof.
  intros w Hw. rewrite loadFile_state. destruct decoded as [b|e]; [|exact Hw].
  destruct Hw as (P1 & P2 & P3 & P4). split; [|done].
  intros a [= <-]. wsimpl. apply lookup_lt_is_Some. rewrite length_app. cbn. lia.
Qed.

Lemma advance_consistent dt : stable consistent (advance dt).
Proof.
  intros w Hw. unfold advance. destruct (Qle_bool 0 dt) eqn:E; [|exact Hw].
  apply Qle_bool_iff in E. destruct Hw as (P1 & P2 & [P3 P3'] & P4).
  cbn [when snd modify]. repeat split; try done. wsimpl. lra.
Qed.

Lemma sessionStarted_consistent w a bs effects onEnded :
  consistent w → (∀ c, is_Some (buffers w !! c) → is_Some (bs !! c)) →
  consistent (sessionStarted w a bs effects onEnded).
Proof.
  intros (P1 & P2 & [P3 P3'] & P4) Hbs. split; [|split; [|split]].
  - intros c Hc. apply Hbs. by apply P1.
  - intros n [= <-]. eexists. split; [by apply list_lookup_middle|]. by eexists.
  - split; cbn [sessionStarted pauseTime startTime currentTime]; lra.
  - intros _. by eexists.
Qed.

(** [play] on a consistent idle engine returns, and leaves a consistent one. *)
Lemma play_idle_consistent w effects onEnded :
  consistent w → isPlaying w = false →
  ∃ w', play effects onEnded w = (Ok tt, w') ∧ consistent w'.
Proof.
  intros Hw Hp. destruct (currentBuffer w) as [a|] eqn:Hc.
  - destruct (proj1 Hw a Hc) as [b Hb].
    eexists. split.
    + apply (play_idle_state w a b); [by split | done | apply Hw].
    + destruct (isReversed effects); apply sessionStarted_consistent; try done.
      intros c Hc'. apply lookup_lt_is_Some in Hc'. apply lookup_lt_is_Some.
      rewrite length_app. lia.
  - exists w. split; [by apply play_unloaded | done].
Qed.

Lemma play_returns w effects onEnded :
  consistent w → ∃ w', play effects onEnded w = (Ok tt, w') ∧ consistent w'.
Proof.
  intros Hw. destruct (isPlaying w) eqn:Hp.
  - rewrite play_while_playing by done.
    destruct (stop_ok w) as (w1 & E & _ & Hp1).
    apply play_idle_consistent.
    + by apply stop_consistent.
    + by rewrite E.
  - by apply play_idle_consistent.
Qed.

Lemma constructor_consistent suspended : consistent (constructor suspended).
Proof.
  split; [by intros a|]. split; [by intros n|]. split; [|by intros].
  split; cbn; lra.
Qed.

Lemma step_consistent c w : consistent w → consistent (step c w).
Proof.
  intros Hw.
  destruct c as [decoded | effects onEnded | | | effects | effects host | n | dt];
    cbn [step].
  - by apply loadFile_consistent.
  - destruct (play_returns w effects onEnded Hw) as (w' & E & Hw'). by rewrite E.
  - by apply pause_consistent.
  - by apply stop_consistent.
  - by apply updateEffects_consistent.
  - by apply exportAudio_consistent.
  - by apply dispatchEnded_consistent.
  - by apply advance_consistent.
Qed.

Lemma reachable_consistent w : reachable w → consistent w.
Proof.
  induction 1 as [suspended | c w Hr IH].
  - apply constructor_consistent.
  - by apply step_consistent.
Qed.

Lemma reachable_run calls w : reachable w → reachable (run calls w).
Proof.
  revert w. induction calls as [|c calls IH]; intros w Hw; [done|].
  cbn [run foldl]. apply IH. by constructor.
Qed.

Lemma pause_returns w : consistent w → ∃ w', pause w = (Ok tt, w') ∧ isPlaying w' = false.
Proof.
  intros (P1 & P2 & P3 & P4). destruct (isPlaying w) eqn:Hp.
  - destruct (P4 Hp) as [n Hn]. destruct (P2 n Hn) as (nd & Hnd & Hst).
    eexists. split; [by apply (pause_playing_spec w n nd)|]. done.
  - exists w. split; [|done]. unfold pause. rewrite !bind_gets, Hp.
    by destruct (sourceNode w).
Qed.

Lemma updateEffects_returns effects w : fst (updateEffects effects w) = Ok tt.
Proof.
  unfold updateEffects. rewrite !bind_modify, !bind_gets. wsimpl.
  destruct (sourceNode w); [|done]. by destruct (isPlaying w).
Qed.

End Invariants.

(** ** Properties of the engine in every state *)

Section EngineProperties.
Import Engine.
Local Open Scope Q_scope.

(** In every state the engine can reach, the paused offset is not negative,
    the session did not start after the present time of the audio clock, the
    current buffer is an object of the store, and a playing engine has a
    buffer and a source node that was started. *)
Theorem reachable_engine_invariants (w : World) :
  reachable w →
  0 <= pauseTime w
  ∧ startTime w <= currentTime w
  ∧ (∀ a, currentBuffer w = Some a → ∃ b, loaded a b w)
  ∧ (isPlaying w = true →
       ∃ a b n nd, loaded a b w ∧ sourceNode w = Some n
         ∧ sources w !! n = Some nd ∧ is_Some (sn_started nd)).
Proof.
  intros Hr. pose proof (reachable_unloaded_idle w Hr) as Hu.
  destruct (reachable_consistent w Hr) as (P1 & P2 & [P3 P3'] & P4).
  split; [done|]. split; [done|].
  assert (Hb : ∀ a, currentBuffer w = Some a → ∃ b, loaded a b w).
  { intros a Ha. destruct (P1 a Ha) as [b Hb]. by exists b. }
  split; [exact Hb|]. intros Hp.
  destruct (currentBuffer w) as [a|] eqn:Hc.
  - destruct (Hb a eq_refl) as [b Hab]. destruct (P4 Hp) as [n Hn].
    destruct (P2 n Hn) as (nd & Hnd & Hst).
    exists a, b, n, nd. split; [|done]. destruct Hab as [_ Hab]. by split.
  - specialize (Hu Hc). congruence.
Qed.

(** One second into a session on the four frames. *)
Lemma reachable_engine_invariants_witness :
  let w := run [CLoadFile (Ok fourFrames); CPlay plain 1; HAdvance 1] (constructor false) in
  reachable w
  ∧ 0 <= pauseTime w
  ∧ startTime w <= currentTime w
  ∧ (∀ a, currentBuffer w = Some a → ∃ b, loaded a b w)
  ∧ (isPlaying w = true →
       ∃ a b n nd, loaded a b w ∧ sourceNode w = Some n
         ∧ sources w !! n = Some nd ∧ is_Some (sn_started nd)).
Proof.
  cbv zeta.
  assert (Hr : reachable
    (run [CLoadFile (Ok fourFrames); CPlay plain 1; HAdvance 1] (constructor false)))
    by (apply reachable_run; constructor).
  split; [exact Hr|].
  apply (reachable_engine_invariants
           (run [CLoadFile (Ok fourFrames); CPlay plain 1; HAdvance 1] (constructor false))).
  exact Hr.
Defined.

(** In every state the engine can reach, the four controls return: [play]
    never starts a source twice nor at a negative offset, [pause] never
    halts a source that was not started, and [createSource] is never
    reached without a buffer.  After [pause] the engine is idle. *)
Theorem reachable_controls_return (w : World) effects onEnded :
  reachable w →
  (∃ w', play effects onEnded w = (Ok tt, w') ∧ reachable w')
  ∧ (∃ w', pause w = (Ok tt, w') ∧ isPlaying w' = false)
  ∧ (∃ w', stop w = (Ok tt, w') ∧ rewound w')
  ∧ fst (updateEffects effects w) = Ok tt.
Proof.
  intros Hr. pose proof (reachable_consistent w Hr) as Hw.
  split; [|split; [|split]].
  - destruct (play_returns w effects onEnded Hw) as (w' & E & _).
    exists w'. split; [done|].
    replace w' with (step (CPlay effects onEnded) w) by (cbn [step]; by rewrite E).
    by constructor.
  - by apply pause_returns.
  - destruct (stop_ok w) as (w' & E & Hpt & Hp). by exists w'.
  - apply updateEffects_returns.
Qed.

(** The controls of an engine whose first session has been paused. *)
Lemma reachable_controls_return_witness :
  let w := run [CLoadFile (Ok fourFrames); CPlay plain 1; HAdvance 1; CPause]
             (constructor true) in
  reachable w
  ∧ (∃ w', play echoReversed 2 w = (Ok tt, w') ∧ reachable w')
  ∧ (∃ w', pause w = (Ok tt, w') ∧ isPlaying w' = false)
  ∧ (∃ w', stop w = (Ok tt, w') ∧ rewound w')
  ∧ fst (updateEffects echoReversed w) = Ok tt.
Proof.
  cbv zeta.
  assert (Hr : reachable
    (run [CLoadFile (Ok fourFrames); CPlay plain 1; HAdvance 1; CPause] (constructor true)))
    by (apply reachable_run; constructor).
  split; [exact Hr|].
  apply (reachable_controls_return
           (run [CLoadFile (Ok fourFrames); CPlay plain 1; HAdvance 1; CPause]
              (constructor true)) echoReversed 2).
  exact Hr.
Defined.




(** [exportAudio] never touches the live session, in any state and whether
    it returns or throws: it leaves every field of the engine, every source
    node, every connection and every buffer of the store as they were.  All
    it can leave behind is one more buffer in the store, the reversed copy,
    and only when the export is reversed. *)
Theorem exportAudio_leaves_session (w : World) effects host :
  ∃ bs, snd (exportAudio effects host w) = set_buffers (buffers w ++ bs) w
    ∧ length bs ≤ 1
    ∧ (isReversed effects = false → bs = []).
Proof.
  assert (Hid : set_buffers (buffers w ++ []) w = w)
    by (rewrite app_nil_r; apply set_buffers_id).
  destruct (currentBuffer w) as [a|] eqn:Hc.
  - destruct (buffers w !! a) as [b|] eqn:Hb.
    + rewrite (exportAudio_state w a b) by done.
      destruct (isReversed effects);
        [ eexists [_]; split; [reflexivity|]; split; [cbn; lia | done]
        | exists []; rewrite Hid; split; [done|]; split; [cbn; lia | done] ].
    + exists []. rewrite Hid. split; [|split; [cbn; lia | done]].
      unfold exportAudio. rewrite bind_gets, Hc.
      unfold bind, getBuffer, reads. by rewrite Hb.
  - exists []. rewrite Hid. split; [|split; [cbn; lia | done]].
    by rewrite exportAudio_unloaded.
Qed.

Lemma called_kept_by_calls c w l :
  isEndedEvent c = false → called w = l → called (step c w) = l.
Proof.
  intros Hc.
  destruct c as [decoded | effects onEnded | | | effects | effects host | n | dt];
    try discriminate; cbn [step]; revert w.
  - change (stable (fun w => called w = l) (loadFile decoded)). unfold loadFile. stable_auto.
  - change (stable (fun w => called w = l) (play effects onEnded)).
    unfold play, createSource, cloneBuffer. stable_auto.
  - change (stable (fun w => called w = l) pause). unfold pause. stable_auto.
  - change (stable (fun w => called w = l) stop). unfold stop. stable_auto.
  - change (stable (fun w => called w = l) (updateEffects effects)).
    unfold updateEffects. stable_auto.
  - change (stable (fun w => called w = l) (exportAudio effects host)).
    unfold exportAudio. stable_auto.
  - change (stable (fun w => called w = l) (advance dt)). unfold advance. stable_auto.
Qed.

(** The caller's completion callback runs only from the host's [ended]
    event: no call of [loadFile], [play], [pause], [stop], [updateEffects]
    or [exportAudio] and no advance of the clock invokes a callback, and an
    [ended] event invokes at most one, that of a source that was started
    and whose event had not been dispatched. *)
Theorem onEnded_only_from_ended_event (c : Call) (w : World) :
  called (step c w) = called w
  ∨ ∃ n nd onEnded,
      c = HEnded n ∧ sources w !! n = Some nd
      ∧ is_Some (sn_started nd) ∧ sn_ended nd = false
      ∧ sn_onended nd = Some onEnded
      ∧ called (step c w) = onEnded :: called w.
Proof.
  destruct (isEndedEvent c) eqn:Hc.
  - destruct c as [ | | | | | | n | ]; try discriminate. cbn [step].
    destruct (sources w !! n) as [nd|] eqn:Hn.
    + destruct (sn_started nd) as [st|] eqn:Hst.
      * destruct (sn_ended nd) eqn:He.
        -- left. unfold dispatchEnded, getSource.
           erewrite bind_reads by (by rewrite Hn).
           rewrite He, andb_false_r. done.
        -- destruct (sn_onended nd) as [onEnded|] eqn:Ho.
           ++ right. exists n, nd, onEnded.
              rewrite (dispatchEnded_spec w n nd onEnded) by (done || by rewrite Hst).
              repeat split; done.
           ++ left. unfold dispatchEnded, getSource.
              erewrite bind_reads by (by rewrite Hn).
              rewrite Ho, He, Hst. cbn. done.
      * left. unfold dispatchEnded, getSource.
        erewrite bind_reads by (by rewrite Hn). rewrite Hst. done.
    + left. unfold dispatchEnded, getSource, bind, reads. by rewrite Hn.
  - left. by apply called_kept_by_calls.
Qed.

Lemma updateEffects_state effects w :
  updateEffects effects w
  = (Ok tt,
     let w1 :=
       set_feedbackGain
         (setTargetAtTime (echoFeedback effects) (currentTime w) (1 # 10) (feedbackGain w))
         (set_delayTime
            (setTargetAtTime (echoDelay effects) (currentTime w) (1 # 10) (delayTime w)) w) in
     match sourceNode w with
     | Some n =>
         if isPlaying w
         then set_sources
                (alter (fun nd => set_sn_detune
                         (setTargetAtTime (pitch effects) (currentTime w) (1 # 10)
                            (sn_detune nd)) nd) n (sources w)) w1
         else w1
     | None => w1
     end).
Proof.
  unfold updateEffects. rewrite !bind_modify, !bind_gets. wsimpl.
  destruct (sourceNode w); [|done]. destruct (isPlaying w); [|done].
  cbn [when]. by rewrite bind_gets.
Qed.

(** [updateEffects] returns in every state and assigns no parameter value:
    it gives the delay time and the feedback gain a target, to approach from
    the present time with a time constant of 0.1 s, and so for the detune of
    the engine's source node when the engine is playing, and of no other
    source.  The flags and times of the engine, its references, the
    buffers, the connections and the callbacks called stay as they were,
    and so does everything but the detune target in every source node. *)
Theorem updateEffects_only_schedules (w : World) effects :
  let w' := snd (updateEffects effects w) in
  fst (updateEffects effects w) = Ok tt
  ∧ (isPlaying w', startTime w', pauseTime w', currentTime w', ctx_suspended w')
    = (isPlaying w, startTime w, pauseTime w, currentTime w, ctx_suspended w)
  ∧ (sourceNode w', currentBuffer w', buffers w', connections w', called w')
    = (sourceNode w, currentBuffer w, buffers w, connections w, called w)
  ∧ delayTime w' = mkParam (value (delayTime w))
                     (Some (echoDelay effects, currentTime w, 1 # 10))
  ∧ feedbackGain w' = mkParam (value (feedbackGain w))
                        (Some (echoFeedback effects, currentTime w, 1 # 10))
  ∧ length (sources w') = length (sources w)
  ∧ ∀ k nd, sources w !! k = Some nd →
      ∃ nd', sources w' !! k = Some nd'
        ∧ set_sn_detune (sn_detune nd) nd' = nd
        ∧ value (sn_detune nd') = value (sn_detune nd)
        ∧ (isPlaying w = true → sourceNode w = Some k →
           targetAt (sn_detune nd') = Some (pitch effects, currentTime w, 1 # 10))
        ∧ (isPlaying w = false ∨ sourceNode w ≠ Some k → nd' = nd).
Proof.
  cbv zeta. rewrite updateEffects_state. cbn [fst snd].
  assert (Hsame : ∀ nd : SourceNode, set_sn_detune (sn_detune nd) nd = nd) by (by intros []).
  destruct (sourceNode w) as [n|] eqn:Hsn; [destruct (isPlaying w) eqn:Hp|].
  - wsimpl. rewrite length_alter. repeat split; try done; try (by rewrite ?Hp, ?Hsn).
    intros k nd Hk. destruct (decide (k = n)) as [->|Hne].
    + eexists. rewrite list_lookup_alter_eq, Hk. split; [reflexivity|].
      repeat split; try done; [by destruct nd | intros [?|?]; congruence].
    + exists nd. rewrite list_lookup_alter_ne by done.
      repeat split; try done. intros _ ?; congruence.
  - wsimpl. repeat split; try done; try (by rewrite ?Hp, ?Hsn).
    intros k nd Hk. exists nd. repeat split; done.
  - wsimpl. repeat split; try done; try (by rewrite ?Hp, ?Hsn).
    intros k nd Hk. exists nd. repeat split; done.
Qed.

Lemma set_sources_id w : set_sources (sources w) w = w.
Proof. by destruct w. Qed.

Lemma set_pauseTime_same w x : pauseTime w = x → set_pauseTime x w = w.
Proof. intros <-. by destruct w. Qed.

Lemma set_isPlaying_same w x : isPlaying w = x → set_isPlaying x w = w.
Proof. intros <-. by destruct w. Qed.

Lemma alter_same {A} (f : A → A) (l : list A) n :
  (∀ x, l !! n = Some x → f x = x) → alter f n l = l.
Proof.
  intros Hf. apply list_eq. intros i. destruct (decide (i = n)) as [->|Hne].
  - rewrite list_lookup_alter_eq. destruct (l !! n) as [x|] eqn:E; [|done].
    cbn. by rewrite Hf.
  - by rewrite list_lookup_alter_ne.
Qed.

Lemma alter_twice {A} (f : A → A) (l : list A) n :
  (∀ x, f (f x) = f x) → alter f n (alter f n l) = alter f n l.
Proof.
  intros Hf. apply alter_same. intros x. rewrite list_lookup_alter_eq.
  destruct (l !! n) as [y|]; [|done]. cbn. intros [= <-]. apply Hf.
Qed.

(** The state [stop] leaves, in every state. *)
Lemma stop_state w :
  stop w = (Ok tt, set_isPlaying false (set_pauseTime 0 (set_sources (stoppedSources w) w))).
Proof.
  unfold stop, stoppedSources. rewrite bind_gets.
  destruct (sourceNode w) as [n|] eqn:Hsn.
  - destruct (sources w !! n) as [nd|] eqn:Hn.
    + destruct (sn_started nd) as [st|] eqn:Hst.
      * erewrite bind_ok.
        2:{ unfold try_ignore. erewrite (source_stop_ok w n nd) by (done || by rewrite Hst).
            reflexivity. }
        rewrite bind_modify. unfold modify. do 4 f_equal.
        apply list_eq. intros i. destruct (decide (i = n)) as [->|Hne].
        -- by rewrite !list_lookup_alter_eq, Hn; cbn; rewrite Hst.
        -- by rewrite !list_lookup_alter_ne.
      * erewrite bind_ok.
        2:{ unfold try_ignore, source_stop, getSource.
            erewrite bind_reads by (by rewrite Hn). rewrite Hst. reflexivity. }
        rewrite bind_modify. unfold modify.
        rewrite alter_same, set_sources_id; [done|].
        intros x. rewrite Hn. intros [= <-]. by rewrite Hst.
    + erewrite bind_ok.
      2:{ unfold try_ignore, source_stop, getSource, bind, reads. rewrite Hn. reflexivity. }
      rewrite bind_modify. unfold modify.
      rewrite alter_same, set_sources_id; [done|].
      intros x. by rewrite Hn.
  - by rewrite bind_ret, bind_modify, set_sources_id.
Qed.

(** [stop] on an engine that [stop] has left changes nothing: the second
    call returns the state it was given.  [stop] keeps the buffer loaded
    and leaves [sourceNode], [startTime], the connections and the callbacks
    called as they were: it neither forgets the source node nor disconnects
    it. *)
Theorem stop_is_idempotent (w : World) :
  let w1 := snd (stop w) in
  stop w1 = (Ok tt, w1)
  ∧ (currentBuffer w1, buffers w1, sourceNode w1, startTime w1, currentTime w1)
    = (currentBuffer w, buffers w, sourceNode w, startTime w, currentTime w)
  ∧ (connections w1, called w1, delayTime w1, feedbackGain w1)
    = (connections w, called w, delayTime w, feedbackGain w)
  ∧ length (sources w1) = length (sources w).
Proof.
  cbv zeta. rewrite (stop_state w). cbn [snd]. split.
  - set (w1 := set_isPlaying false _).
    assert (Hs : stoppedSources w1 = sources w1).
    { unfold stoppedSources. subst w1. wsimpl. unfold stoppedSources.
      destruct (sourceNode w) as [n|]; [|done].
      apply alter_twice. intros nd. destruct (sn_started nd) eqn:E; [|by rewrite E].
      cbn. by rewrite E. }
    rewrite stop_state, Hs, set_sources_id.
    by rewrite (set_pauseTime_same w1 0), (set_isPlaying_same w1 false).
  - wsimpl. split; [done|]. split; [done|].
    unfold stoppedSources. destruct (sourceNode w); [|done]. by rewrite length_alter.
Qed.

Lemma pause_idle w : isPlaying w = false → pause w = (Ok tt, w).
Proof.
  intros Hp. unfold pause. rewrite !bind_gets, Hp. by destruct (sourceNode w).
Qed.

(** In every state the engine can reach, [pause] returns and leaves the
    engine idle; on a playing engine it stores the time played,
    [currentTime - startTime], as the offset, which is never negative; and
    [pause] on an engine that is not playing changes nothing, so a second
    [pause] is without effect. *)
Theorem pause_is_idempotent (w : World) :
  reachable w →
  let w1 := snd (pause w) in
  fst (pause w) = Ok tt
  ∧ isPlaying w1 = false
  ∧ (isPlaying w = true → pauseTime w1 = currentTime w - startTime w ∧ 0 <= pauseTime w1)
  ∧ (isPlaying w = false → w1 = w)
  ∧ pause w1 = (Ok tt, w1).
Proof.
  intros Hr. cbv zeta. pose proof (reachable_consistent w Hr) as Hw.
  destruct (pause_returns w Hw) as (w1 & E & Hp1). rewrite E. cbn [fst snd].
  split; [done|]. split; [done|]. split; [|split].
  - intros Hp. destruct Hw as (P1 & P2 & [P3 P3'] & P4).
    destruct (P4 Hp) as [n Hn]. destruct (P2 n Hn) as (nd & Hnd & Hst).
    rewrite (pause_playing_spec w n nd) in E by done.
    injection E as <-. wsimpl. split; [done | lra].
  - intros Hp. rewrite pause_idle in E by done. by injection E.
  - by apply pause_idle.
Qed.

(** Two seconds into a session on the four frames. *)
Lemma pause_is_idempotent_witness :
  let w := run [CLoadFile (Ok fourFrames); CPlay plain 1; HAdvance 2] (constructor false) in
  reachable w
  ∧ (let w1 := snd (pause w) in
     fst (pause w) = Ok tt
     ∧ isPlaying w1 = false
     ∧ (isPlaying w = true → pauseTime w1 = currentTime w - startTime w ∧ 0 <= pauseTime w1)
     ∧ (isPlaying w = false → w1 = w)
     ∧ pause w1 = (Ok tt, w1)).
Proof.
  cbv zeta.
  assert (Hr : reachable
    (run [CLoadFile (Ok fourFrames); CPlay plain 1; HAdvance 2] (constructor false)))
    by (apply reachable_run; constructor).
  split; [exact Hr|].
  apply (pause_is_idempotent
           (run [CLoadFile (Ok fourFrames); CPlay plain 1; HAdvance 2] (constructor false))).
  exact Hr.
Defined.

Lemma rewound_step c w : isPlayCall c = false → rewound w → rewound (step c w).
Proof.
  intros Hc.
  destruct c as [decoded | effects onEnded | | | effects | effects host | n | dt];
    try discriminate; cbn [step]; unfold rewound.
  - revert w. change (stable (fun w => isPlaying w = false ∧ pauseTime w = 0)
                        (loadFile decoded)).
    unfold loadFile. stable_auto.
  - intros [Hp Ht]. by rewrite pause_idle.
  - intros _. destruct (stop_ok w) as (w' & E & Hpt & Hp). by rewrite E.
  - revert w. change (stable (fun w => isPlaying w = false ∧ pauseTime w = 0)
                        (updateEffects effects)).
    unfold updateEffects. stable_auto.
  - revert w. change (stable (fun w => isPlaying w = false ∧ pauseTime w = 0)
                        (exportAudio effects host)).
    unfold exportAudio. stable_auto.
  - revert w. change (stable (fun w => isPlaying w = false ∧ pauseTime w = 0)
                        (dispatchEnded n)).
    unfold dispatchEnded. stable_auto.
  - revert w. change (stable (fun w => isPlaying w = false ∧ pauseTime w = 0) (advance dt)).
    unfold advance. stable_auto.
Qed.

Lemma rewound_run calls w :
  forallb (fun c => negb (isPlayCall c)) calls = true → rewound w → rewound (run calls w).
Proof.
  revert w. induction calls as [|c calls IH]; intros w Hcs Hw; [done|].
  cbn [forallb] in Hcs. apply andb_true_iff in Hcs as [Hc Hcs].
  cbn [run foldl]. apply IH; [done|]. apply rewound_step; [|done].
  by destruct (isPlayCall c).
Qed.

(** Once [stop] has rewound the engine, it stays idle at offset 0 whatever
    happens until the next [play]: no call of [loadFile], [pause], [stop],
    [updateEffects] or [exportAudio], no [ended] event and no advance of the
    clock moves the offset.  The next [play], with a buffer loaded, returns
    and starts a new source node at offset 0, that is from the beginning of
    the buffer. *)
Theorem rewound_until_play (w : World) (calls : list Call) :
  rewound w → forallb (fun c => negb (isPlayCall c)) calls = true →
  let w1 := run calls w in
  rewound w1
  ∧ ∀ a b effects onEnded, loaded a b w1 →
      ∃ w2 nd, play effects onEnded w1 = (Ok tt, w2)
        ∧ isPlaying w2 = true
        ∧ startTime w2 == currentTime w1
        ∧ sourceNode w2 = Some (length (sources w1))
        ∧ sources w2 = sources w1 ++ [nd]
        ∧ sn_started nd = Some (0, 0).
Proof.
  intros Hw Hcs. cbv zeta. pose proof (rewound_run calls w Hcs Hw) as [Hp Ht].
  split; [by split|]. intros a b effects onEnded Hab.
  rewrite (play_idle_state (run calls w) a b) by (done || rewrite Ht; lra).
  destruct (isReversed effects); eexists _, _; (split; [reflexivity|]);
    cbn [sessionStarted isPlaying startTime sourceNode sources]; rewrite Ht;
    (split; [done|]; split; [ring|]; split; [done|]; split; [reflexivity | done]).
Qed.

(** A stopped session, then a change of effects, the [ended] event of the
    halted source and 50 ms of clock. *)
Lemma rewound_until_play_witness :
  let w := run [CLoadFile (Ok fourFrames); CPlay plain 1; HAdvance 1; CStop]
             (constructor false) in
  let calls := [CUpdateEffects echoReversed; HEnded 0; HAdvance (1 # 20)] in
  (rewound w ∧ forallb (fun c => negb (isPlayCall c)) calls = true)
  ∧ (let w1 := run calls w in
     rewound w1
     ∧ ∀ a b effects onEnded, loaded a b w1 →
         ∃ w2 nd, play effects onEnded w1 = (Ok tt, w2)
           ∧ isPlaying w2 = true
           ∧ startTime w2 == currentTime w1
           ∧ sourceNode w2 = Some (length (sources w1))
           ∧ sources w2 = sources w1 ++ [nd]
           ∧ sn_started nd = Some (0, 0)).
Proof.
  cbv zeta. split; [split; [split|]; reflexivity|].
  apply (rewound_until_play
           (run [CLoadFile (Ok fourFrames); CPlay plain 1; HAdvance 1; CStop]
              (constructor false))
           [CUpdateEffects echoReversed; HEnded 0; HAdvance (1 # 20)]);
    [split|]; reflexivity.
Defined.

Lemma elem_of_addEdge e e' cs : e ∈ addEdge e' cs ↔ e ∈ cs ∨ e = e'.
Proof.
  unfold addEdge. case_bool_decide as H.
  - split; [by left|]. intros [?| ->]; done.
  - rewrite elem_of_app, list_elem_of_singleton. done.
Qed.

Lemma elem_of_addEdges e es cs :
  e ∈ foldl (fun cs e => addEdge e cs) cs es ↔ e ∈ cs ∨ e ∈ es.
Proof.
  revert cs. induction es as [|e' es IH]; intros cs; cbn [foldl].
  - split; [by left|]. intros [?|H]; [done|]. by apply elem_of_nil in H.
  - rewrite IH, elem_of_addEdge, elem_of_cons. tauto.
Qed.

(** [play] on an idle engine with a buffer returns and starts a session:
    the context is running, the engine is playing, a new source node is the
    engine's source node, started at once at the paused offset, sounding,
    with the pitch as its detune and the caller's callback behind its
    [onended]; [startTime] is the present time minus the offset; the delay
    time and the feedback gain have the values of the effects; the buffer
    stays loaded. *)
Theorem play_starts_session (w : World) (a : nat) (b : AudioBuffer) effects onEnded :
  loaded a b w → isPlaying w = false → 0 <= pauseTime w →
  ∃ w' nd, play effects onEnded w = (Ok tt, w')
    ∧ isPlaying w' = true ∧ ctx_suspended w' = false
    ∧ pauseTime w' = pauseTime w
    ∧ startTime w' = currentTime w - pauseTime w
    ∧ loaded a b w'
    ∧ sourceNode w' = Some (length (sources w))
    ∧ sources w' = sources w ++ [nd]
    ∧ sn_started nd = Some (0, pauseTime w)
    ∧ sounding nd = true
    ∧ sn_onended nd = Some onEnded
    ∧ sn_detune nd = mkParam (pitch effects) None
    ∧ value (delayTime w') = echoDelay effects
    ∧ value (feedbackGain w') = echoFeedback effects.
Proof.
  intros Hw Hp Hoff. pose proof Hw as [Hc Hb].
  rewrite (play_idle_state w a b) by done.
  destruct (isReversed effects); eexists _, _; (split; [reflexivity|]);
    unfold loaded; cbn [sessionStarted isPlaying ctx_suspended pauseTime startTime
      currentBuffer buffers sourceNode sources delayTime feedbackGain];
    (split; [done|]); (split; [done|]); (split; [done|]); (split; [done|]);
    (split; [split; [done | by apply lookup_app_l_Some || done]|]);
    (split; [done|]); (split; [reflexivity|]); by repeat split.
Qed.

(** A first session on the four frames, in a suspended context. *)
Lemma play_starts_session_witness :
  let w := step (CLoadFile (Ok fourFrames)) (constructor true) in
  (loaded 0 fourFrames w ∧ isPlaying w = false ∧ 0 <= pauseTime w)
  ∧ ∃ w' nd, play echoReversed 1 w = (Ok tt, w')
    ∧ isPlaying w' = true ∧ ctx_suspended w' = false
    ∧ pauseTime w' = pauseTime w
    ∧ startTime w' = currentTime w - pauseTime w
    ∧ loaded 0 fourFrames w'
    ∧ sourceNode w' = Some (length (sources w))
    ∧ sources w' = sources w ++ [nd]
    ∧ sn_started nd = Some (0, pauseTime w)
    ∧ sounding nd = true
    ∧ sn_onended nd = Some 1%nat
    ∧ sn_detune nd = mkParam (pitch echoReversed) None
    ∧ value (delayTime w') = echoDelay echoReversed
    ∧ value (feedbackGain w') = echoFeedback echoReversed.
Proof.
  cbv zeta.
  assert (Hw : loaded 0 fourFrames (step (CLoadFile (Ok fourFrames)) (constructor true)))
    by (split; reflexivity).
  split; [split; [exact Hw | by vm_compute]|].
  apply (play_starts_session
           (step (CLoadFile (Ok fourFrames)) (constructor true)) 0 fourFrames echoReversed 1);
    [exact Hw | reflexivity | by vm_compute].
Defined.

(** The graph of a session: [play] on an idle engine with a buffer adds to
    the connections exactly those of its effect graph, the new source into
    the gain and into the delay, the delay and the feedback gain in a loop,
    the delay into the gain, the gain into the analyser and the analyser
    into the destination, and removes none: the source nodes of earlier
    sessions stay connected.  The new source plays the current buffer
    itself when the effects are not reversed, and then no buffer is made;
    it plays a new buffer, the only one added, when they are. *)
Theorem play_builds_graph (w : World) (a : nat) (b : AudioBuffer) effects onEnded :
  loaded a b w → isPlaying w = false → 0 <= pauseTime w →
  let w' := snd (play effects onEnded w) in
  let n := length (sources w) in
  (∀ e, e ∈ connections w' ↔ e ∈ connections w ∨ e ∈ playEdges n)
  ∧ (sn_buffer <$> sources w' !! n)
    = Some (Some (if isReversed effects then length (buffers w) else a))
  ∧ buffers w'
    = (if isReversed effects then buffers w ++ [reversed (cloneOf b)] else buffers w).
Proof.
  intros Hw Hp Hoff. cbv zeta. rewrite (play_idle_state w a b) by done. cbn [snd].
  destruct (isReversed effects);
    cbn [sessionStarted connections sources buffers];
    (split; [intros e; apply elem_of_addEdges|]);
    by rewrite (list_lookup_middle (sources w) []).
Qed.

(** A second session on the four frames, reversed. *)
Lemma play_builds_graph_witness :
  let w := run [CLoadFile (Ok fourFrames); CPlay plain 1; HAdvance 1; CPause]
             (constructor false) in
  (loaded 0 fourFrames w ∧ isPlaying w = false ∧ 0 <= pauseTime w)
  ∧ (let w' := snd (play echoReversed 2 w) in
     let n := length (sources w) in
     (∀ e, e ∈ connections w' ↔ e ∈ connections w ∨ e ∈ playEdges n)
     ∧ (sn_buffer <$> sources w' !! n)
       = Some (Some (if isReversed echoReversed then length (buffers w) else 0%nat))
     ∧ buffers w'
       = (if isReversed echoReversed
          then buffers w ++ [reversed (cloneOf fourFrames)] else buffers w)).
Proof.
  cbv zeta.
  assert (Hw : loaded 0 fourFrames
    (run [CLoadFile (Ok fourFrames); CPlay plain 1; HAdvance 1; CPause] (constructor false)))
    by (split; reflexivity).
  split; [split; [exact Hw | by vm_compute]|].
  apply (play_builds_graph
           (run [CLoadFile (Ok fourFrames); CPlay plain 1; HAdvance 1; CPause]
              (constructor false)) 0 fourFrames echoReversed 2);
    [exact Hw | reflexivity | by vm_compute].
Defined.

(** A session that plays to its end: when the host dispatches the [ended]
    event of the source of a running session, the handler leaves the engine
    idle at offset 0 and has called the session's callback, once, and no
    other; the source is no longer sounding. *)
Theorem completed_session_rewinds (w : World) (a : nat) (b : AudioBuffer)
    effects onEnded t :
  loaded a b w → isPlaying w = false → 0 <= pauseTime w → 0 <= t →
  let n := length (sources w) in
  let w' := run [CPlay effects onEnded; HAdvance t; HEnded n] w in
  rewound w'
  ∧ called w' = onEnded :: called w
  ∧ (∃ nd, sources w' !! n = Some nd ∧ sn_ended nd = true ∧ sounding nd = false).
Proof.
  intros Hw Hp Hoff Ht. cbv zeta. cbn [run foldl step].
  assert (E : ∃ a' bs, play effects onEnded w
                       = (Ok tt, sessionStarted w a' bs effects onEnded)).
  { rewrite (play_idle_state w a b) by done. destruct (isReversed effects); by eexists _, _. }
  destruct E as (a' & bs & E). rewrite E. cbn [snd].
  rewrite (advance_spec _ _ Ht). cbn [snd].
  set (nd := playingSource a' (pauseTime w) effects onEnded).
  rewrite (dispatchEnded_spec _ (length (sources w)) nd onEnded);
    [| by apply list_lookup_middle | by eexists | done | done ].
  cbn [snd]. unfold rewound. wsimpl. cbn [sessionStarted sources called].
  fold nd. rewrite (alter_middle _ (sources w) []).
  split; [done|]. split; [done|].
  eexists. split; [by apply list_lookup_middle|]. done.
Qed.

(** A session on the four frames, ended after one second. *)
Lemma completed_session_rewinds_witness :
  let w := step (CLoadFile (Ok fourFrames)) (constructor false) in
  (loaded 0 fourFrames w ∧ isPlaying w = false ∧ 0 <= pauseTime w ∧ 0 <= 1)
  ∧ (let n := length (sources w) in
     let w' := run [CPlay plain 1; HAdvance 1; HEnded n] w in
     rewound w'
     ∧ called w' = 1%nat :: called w
     ∧ (∃ nd, sources w' !! n = Some nd ∧ sn_ended nd = true ∧ sounding nd = false)).
Proof.
  cbv zeta.
  assert (Hw : loaded 0 fourFrames (step (CLoadFile (Ok fourFrames)) (constructor false)))
    by (split; reflexivity).
  split; [split; [exact Hw | by vm_compute]|].
  apply (completed_session_rewinds
           (step (CLoadFile (Ok fourFrames)) (constructor false)) 0 fourFrames plain 1 1);
    [exact Hw | reflexivity | by vm_compute | by vm_compute].
Defined.

(** [cloneBuffer] of a buffer whose channels all have its length returns a
    new buffer with the same sample rate, length and samples, and leaves
    the buffer it copies, and everything else, as it was. *)
Theorem cloneBuffer_copies (w : World) (a : nat) (b : AudioBuffer) :
  buffers w !! a = Some b → wellFormed b →
  cloneBuffer a w = (Ok (length (buffers w)), set_buffers (buffers w ++ [b]) w)
  ∧ length (buffers w) ≠ a
  ∧ buffers (snd (cloneBuffer a w)) !! a = Some b
  ∧ buffers (snd (cloneBuffer a w)) !! length (buffers w) = Some b.
Proof.
  intros Ha Hb. pose proof (lookup_lt_Some _ _ _ Ha) as Hlt.
  rewrite (cloneBuffer_spec w a b Ha), (cloneOf_wellFormed b Hb). cbn [snd buffers set_buffers].
  split; [done|]. split; [lia|]. split; [by apply lookup_app_l_Some|].
  by apply list_lookup_middle.
Qed.

(** The clone of the three stereo frames. *)
Lemma cloneBuffer_copies_witness :
  let w := step (CLoadFile (Ok stereoFrames)) (constructor true) in
  (buffers w !! 0%nat = Some stereoFrames ∧ wellFormed stereoFrames)
  ∧ cloneBuffer 0 w = (Ok (length (buffers w)), set_buffers (buffers w ++ [stereoFrames]) w)
  ∧ length (buffers w) ≠ 0%nat
  ∧ buffers (snd (cloneBuffer 0 w)) !! 0%nat = Some stereoFrames
  ∧ buffers (snd (cloneBuffer 0 w)) !! length (buffers w) = Some stereoFrames.
Proof.
  cbv zeta.
  assert (Hwf : wellFormed stereoFrames) by (repeat constructor).
  split; [split; [reflexivity | exact Hwf]|].
  apply (cloneBuffer_copies
           (step (CLoadFile (Ok stereoFrames)) (constructor true)) 0 stereoFrames);
    [reflexivity | exact Hwf].
Defined.

(** With the reversed flag set, the buffer [createSource] gives the new
    source has the sample rate, the length and the number of channels of
    the current buffer, and in every channel sample [j] is sample
    [length - 1 - j] of the same channel of the current buffer. *)
Theorem reversed_source_samples (w : World) (a : nat) (b : AudioBuffer) effects :
  loaded a b w → wellFormed b → isReversed effects = true →
  ∃ n a' w' rb,
    createSource effects w = (Ok n, w')
    ∧ (sn_buffer <$> sources w' !! n) = Some (Some a')
    ∧ buffers w' !! a' = Some rb
    ∧ ab_sampleRate rb = ab_sampleRate b
    ∧ ab_length rb = ab_length b
    ∧ numberOfChannels rb = numberOfChannels b
    ∧ wellFormed rb
    ∧ ∀ i ch (j : nat), ab_channels b !! i = Some ch → (j < ab_length b)%nat →
        ∃ ch', ab_channels rb !! i = Some ch'
          ∧ ch' !! j = ch !! (ab_length b - 1 - j)%nat.
Proof.
  intros Hw Hwf Hr.
  exists (length (sources w)), (length (buffers w)). eexists. exists (reversed b).
  split; [by apply (createSource_reversed w a b)|].
  rewrite (cloneOf_wellFormed b Hwf).
  cbn [sources buffers set_sources set_buffers].
  rewrite (list_lookup_middle (sources w) []), (list_lookup_middle (buffers w) []) by done.
  split; [done|]. split; [done|]. split; [done|]. split; [done|].
  unfold wellFormed, numberOfChannels, reversed in *. cbn [ab_channels ab_length set_channels].
  split; [by rewrite length_fmap|]. split.
  - apply Forall_fmap. eapply Forall_impl; [exact Hwf|]. intros ch Hch. cbn.
    by rewrite length_rev.
  - intros i ch j Hi Hj. exists (rev ch). rewrite list_lookup_fmap, Hi. split; [done|].
    assert (Hlen : length ch = ab_length b).
    { rewrite Forall_forall in Hwf. apply Hwf. by apply list_elem_of_lookup_2 in Hi. }
    rewrite rev_alt. change (rev_append ch []) with (reverse ch).
    rewrite reverse_lookup by lia. f_equal. lia.
Qed.

(** The reversed source of the three stereo frames. *)
Lemma reversed_source_samples_witness :
  let w := step (CLoadFile (Ok stereoFrames)) (constructor true) in
  (loaded 0 stereoFrames w ∧ wellFormed stereoFrames ∧ isReversed echoReversed = true)
  ∧ ∃ n a' w' rb,
      createSource echoReversed w = (Ok n, w')
      ∧ (sn_buffer <$> sources w' !! n) = Some (Some a')
      ∧ buffers w' !! a' = Some rb
      ∧ ab_sampleRate rb = ab_sampleRate stereoFrames
      ∧ ab_length rb = ab_length stereoFrames
      ∧ numberOfChannels rb = numberOfChannels stereoFrames
      ∧ wellFormed rb
      ∧ ∀ i ch (j : nat), ab_channels stereoFrames !! i = Some ch →
          (j < ab_length stereoFrames)%nat →
          ∃ ch', ab_channels rb !! i = Some ch'
            ∧ ch' !! j = ch !! (ab_length stereoFrames - 1 - j)%nat.
Proof.
  cbv zeta.
  assert (Hw : loaded 0 stereoFrames (step (CLoadFile (Ok stereoFrames)) (constructor true)))
    by (split; reflexivity).
  assert (Hwf : wellFormed stereoFrames) by (repeat constructor).
  split; [split; [exact Hw | split; [exact Hwf | reflexivity]]|].
  apply (reversed_source_samples
           (step (CLoadFile (Ok stereoFrames)) (constructor true)) 0 stereoFrames
           echoReversed); [exact Hw | exact Hwf | reflexivity].
Defined.

(** [loadFile] after [stop], the order in which a new file is taken: a
    decoded buffer becomes a new object of the store and the current
    buffer, the buffers that were there stay, and the engine is idle at
    offset 0, so that the next [play] returns and starts a new source from
    the beginning of the new buffer, or of its reversed copy.  When the
    decoding fails, [loadFile] leaves the engine as [stop] left it, with the
    buffer it had. *)
Theorem load_after_stop_then_play (w : World) (b : AudioBuffer) effects onEnded :
  let w1 := run [CStop; CLoadFile (Ok b)] w in
  let w2 := step (CPlay effects onEnded) w1 in
  rewound w1
  ∧ loaded (length (buffers w)) b w1
  ∧ (∀ a' b', buffers w !! a' = Some b' → buffers w1 !! a' = Some b')
  ∧ fst (play effects onEnded w1) = Ok tt
  ∧ isPlaying w2 = true
  ∧ sourceNode w2 = Some (length (sources w))
  ∧ (∃ nd, sources w2 !! length (sources w) = Some nd
       ∧ sn_started nd = Some (0, 0)
       ∧ sn_buffer nd
         = Some (if isReversed effects then S (length (buffers w)) else length (buffers w)))
  ∧ ∀ e, loadFile (Throw e) (step CStop w) = (Throw e, step CStop w).
Proof.
  cbv zeta. cbn [run foldl step]. rewrite (stop_state w). cbn [snd].
  rewrite !loadFile_state. cbn [snd]. wsimpl.
  set (w1 := set_currentBuffer _ _).
  assert (Hw1 : loaded (length (buffers w)) b w1)
    by (split; [done | by apply list_lookup_middle]).
  assert (Hr1 : rewound w1) by done.
  split; [done|]. split; [done|]. split; [intros a' b' H; by apply lookup_app_l_Some|].
  rewrite (play_idle_state w1 _ b) by (done || (destruct Hr1 as [_ ->]; lra)).
  assert (Hlen : length (sources w1) = length (sources w)).
  { subst w1. wsimpl. unfold stoppedSources. destruct (sourceNode w); [|done].
    by rewrite length_alter. }
  destruct Hr1 as [_ Hpt].
  destruct (isReversed effects); cbn [fst snd sessionStarted isPlaying sourceNode sources];
    rewrite Hlen, Hpt, <- Hlen, (list_lookup_middle (sources w1) []) by done;
    (split; [done|]); (split; [done|]); (split; [done|]);
    (split; [eexists; split; [reflexivity|]; split; [done|];
             cbn; rewrite ?length_app; cbn; f_equal; lia|]);
    done.
Qed.

(** In every state the engine can reach, [stop] silences the engine's
    source node, and so does [pause] on a playing engine: the node is there,
    and after the call it is not sounding. *)
Theorem stop_and_pause_silence_source (w : World) (n : nat) :
  reachable w → sourceNode w = Some n →
  (∃ nd, sources (snd (stop w)) !! n = Some nd ∧ sounding nd = false)
  ∧ (isPlaying w = true →
     ∃ nd, sources (snd (pause w)) !! n = Some nd ∧ sounding nd = false).
Proof.
  intros Hr Hn. destruct (reachable_consistent w Hr) as (_ & P2 & _).
  destruct (P2 n Hn) as (nd & Hnd & [st Hst]).
  assert (Hs : sounding (set_sn_stopped nd) = false).
  { unfold sounding. cbn. by rewrite andb_false_r. }
  split.
  - rewrite stop_state. cbn [snd]. wsimpl. unfold stoppedSources. rewrite Hn.
    exists (set_sn_stopped nd). rewrite list_lookup_alter_eq, Hnd. cbn. by rewrite Hst.
  - intros Hp. rewrite (pause_playing_spec w n nd) by (done || by rewrite Hst).
    cbn [snd]. wsimpl. exists (set_sn_stopped nd).
    by rewrite list_lookup_alter_eq, Hnd.
Qed.

(** One second into a session on the four frames. *)
Lemma stop_and_pause_silence_source_witness :
  let w := run [CLoadFile (Ok fourFrames); CPlay plain 1; HAdvance 1] (constructor false) in
  (reachable w ∧ sourceNode w = Some 0%nat)
  ∧ (∃ nd, sources (snd (stop w)) !! 0%nat = Some nd ∧ sounding nd = false)
  ∧ (isPlaying w = true →
     ∃ nd, sources (snd (pause w)) !! 0%nat = Some nd ∧ sounding nd = false).
Proof.
  cbv zeta.
  assert (Hr : reachable
    (run [CLoadFile (Ok fourFrames); CPlay plain 1; HAdvance 1] (constructor false)))
    by (apply reachable_run; constructor).
  split; [split; [exact Hr | reflexivity]|].
  apply (stop_and_pause_silence_source
           (run [CLoadFile (Ok fourFrames); CPlay plain 1; HAdvance 1] (constructor false))
           0); [exact Hr | reflexivity].
Defined.

End EngineProperties.
